(** * Registration service (src/main.ts): shallow embedding and properties

    The service has three routes.  [GET /] lists the ten most recently
    created users, [POST /api/register] validates a request, stores a new
    user with an atomic conditional write and answers with a signed token,
    and [GET /health] reports liveness.

    The handlers are embedded as programs over the effects they perform
    (key-value store operations, clock reads, salted hashing).  A handler
    is a finite tree: every [await]ed store operation is a node whose
    continuation receives the operation's result.  The same trees are run
    sequentially, with interference between their steps, and as a pool of
    concurrently served requests.  Other requests may act between any two
    effects of a handler; JavaScript lets them in only at an [await], so
    every interleaving of the service is among those considered here.

    Library calls are taken to answer.  The exceptions a call may raise
    (a store that cannot be reached, a template that fails to render, a
    hash of something that is not a string), which oak turns into a
    response with status 500, are not modelled; what is proved about the
    outcome of a handler is about the runs in which no call raises one.

    A JavaScript string is kept as the bytes of its UTF-8 encoding, the
    form in which a request carries it and in which Deno KV compares key
    parts; its [length], counted in UTF-16 code units, is [utf16_length].
    A string with an unpaired surrogate has no such encoding and is not
    represented.  Numbers that are integers in the source are in [Z]; the
    numbers of a request body are IEEE 754 doubles. *)

From stdpp Require Import base option list strings gmap sorting.
From Stdlib Require Import ZArith Lia PrimFloat.

Local Open Scope string_scope.
Local Open Scope Z_scope.

(** ** Stable sorting *)

(** Stable insertion from the right end: [x] goes in front of the first
    element it is not greater than, so elements that compare equal keep
    the order they had. *)
Fixpoint insert_by {A} (leb : A → A → bool) (x : A) (l : list A) : list A :=
  match l with
  | [] => [x]
  | y :: l' => if leb x y then x :: y :: l' else y :: insert_by leb x l'
  end.

Definition stable_sort {A} (leb : A → A → bool) (l : list A) : list A :=
  foldr (insert_by leb) [] l.

(** ** Strings *)

(** The UTF-16 code units a byte of a UTF-8 encoding accounts for: one
    for a byte that starts a character of one, two or three bytes, two
    (a surrogate pair) for a byte that starts a character of four bytes,
    none for a continuation byte. *)
Definition utf16_units (b : Ascii.ascii) : nat :=
  match b with
  | Ascii.Ascii _ _ _ _ _ _ _ false => 1
  | Ascii.Ascii _ _ _ _ _ _ false true => 0
  | Ascii.Ascii _ _ _ _ true true true true => 2
  | Ascii.Ascii _ _ _ _ _ _ true true => 1
  end.

(** [s.length]. *)
Fixpoint utf16_length (s : string) : nat :=
  match s with
  | EmptyString => 0
  | String b s' => utf16_units b + utf16_length s'
  end.

Definition continuation (b : Ascii.ascii) : bool :=
  match b with
  | Ascii.Ascii _ _ _ _ _ _ false true => true
  | _ => false
  end.

Definition between (lo hi : N) (b : Ascii.ascii) : bool :=
  (lo <=? Ascii.N_of_ascii b)%N && (Ascii.N_of_ascii b <=? hi)%N.

(** The byte strings that are the UTF-8 encoding of a string: every
    character is encoded in the shortest form, none is a surrogate and
    none lies beyond U+10FFFF. *)
Fixpoint utf8 (s : string) : bool :=
  match s with
  | EmptyString => true
  | String b s1 =>
      if between 0 127 b then utf8 s1
      else if between 194 223 b then
        match s1 with
        | String b1 s2 => continuation b1 && utf8 s2
        | _ => false
        end
      else if between 224 239 b then
        match s1 with
        | String b1 (String b2 s3) =>
            between (if between 224 224 b then 160 else 128)
                    (if between 237 237 b then 159 else 191) b1 &&
            continuation b2 && utf8 s3
        | _ => false
        end
      else if between 240 244 b then
        match s1 with
        | String b1 (String b2 (String b3 s4)) =>
            between (if between 240 240 b then 144 else 128)
                    (if between 244 244 b then 143 else 191) b1 &&
            continuation b2 && continuation b3 && utf8 s4
        | _ => false
        end
      else false
  end.

(** ** Data model *)

(** [interface User]: [createdAt] is a [Date], kept as its [getTime()]
    value in milliseconds. *)
Record User := mkUser {
  username : string;
  password : string;
  createdAt : Z
}.

Global Instance User_eq_dec : EqDecision User.
Proof. solve_decision. Defined.

Module Kv.

(** Deno KV, as far as the service uses it: a map from hierarchical keys
    to versioned values.  All key parts written by the service are
    strings.  A versionstamp is the number of the commit that wrote the
    entry; [null] is [None]. *)
Abbreviation KvKey := (Datatypes.list string).

Record Store := mkStore {
  data : gmap (list string) (User * N);
  commits : N
}.

Global Instance Store_eq_dec : EqDecision Store.
Proof. solve_decision. Defined.

Definition empty : Store := {| data := ∅; commits := 0%N |}.

(** Result of [get]: [value] and [versionstamp] are both [null] when the
    key has no entry. *)
Record KvEntryMaybe := mkEntryMaybe {
  m_key : KvKey;
  m_value : option User;
  m_versionstamp : option N
}.

Record KvEntry := mkEntry {
  key : KvKey;
  value : User;
  versionstamp : N
}.

Definition get (k : KvKey) (s : Store) : KvEntryMaybe :=
  {| m_key := k;
     m_value := fst <$> data s !! k;
     m_versionstamp := snd <$> data s !! k |}.

(** Keys are ordered part by part, strings by their bytes. *)
Fixpoint key_compare (k1 k2 : KvKey) : comparison :=
  match k1, k2 with
  | [], [] => Eq
  | [], _ :: _ => Lt
  | _ :: _, [] => Gt
  | p1 :: k1', p2 :: k2' =>
      match String.compare p1 p2 with
      | Eq => key_compare k1' k2'
      | c => c
      end
  end.

Definition key_leb (k1 k2 : KvKey) : bool :=
  match key_compare k1 k2 with Gt => false | _ => true end.

(** A prefix selector matches the keys that extend the prefix by at least
    one part. *)
Fixpoint has_prefix (prefix k : KvKey) : bool :=
  match prefix, k with
  | [], _ :: _ => true
  | [], [] => false
  | _ :: _, [] => false
  | p :: prefix', q :: k' => bool_decide (p = q) && has_prefix prefix' k'
  end.

(** Atomic operations: [atomic()] starts an empty operation, [check] and
    [set] extend it, [commit] applies every mutation under a fresh
    versionstamp if every check holds and changes nothing otherwise. *)
Record AtomicCheck := mkCheck {
  c_key : KvKey;
  c_versionstamp : option N
}.

Inductive Mutation :=
| MSet (k : KvKey) (v : User).

Record AtomicOperation := mkOp {
  checks : list AtomicCheck;
  mutations : list Mutation
}.

Definition atomic : AtomicOperation := {| checks := []; mutations := [] |}.

Definition check (c : AtomicCheck) (op : AtomicOperation) : AtomicOperation :=
  {| checks := checks op ++ [c]; mutations := mutations op |}.

Definition set (k : KvKey) (v : User) (op : AtomicOperation) : AtomicOperation :=
  {| checks := checks op; mutations := mutations op ++ [MSet k v] |}.

Record KvCommitResult := mkCommitResult {
  ok : bool;
  r_versionstamp : option N
}.

Definition check_holds (s : Store) (c : AtomicCheck) : bool :=
  bool_decide (snd <$> data s !! c_key c = c_versionstamp c).

Definition apply_mutation (v : N) (d : gmap (list string) (User * N)) (m : Mutation)
  : gmap (list string) (User * N) :=
  match m with
  | MSet k u => <[k := (u, v)]> d
  end.

Definition commit (op : AtomicOperation) (s : Store) : KvCommitResult * Store :=
  if forallb (check_holds s) (checks op) then
    let v := N.succ (commits s) in
    ({| ok := true; r_versionstamp := Some v |},
     {| data := foldl (apply_mutation v) (data s) (mutations op); commits := v |})
  else
    ({| ok := false; r_versionstamp := None |}, s).

(** [list({ prefix })]: the matching entries in ascending key order. *)
Definition to_entry (kv : KvKey * (User * N)) : KvEntry :=
  {| key := kv.1; value := kv.2.1; versionstamp := kv.2.2 |}.

Definition list (prefix : KvKey) (s : Store) : Datatypes.list KvEntry :=
  stable_sort (λ e e', key_leb (key e) (key e'))
    (filter (λ e, has_prefix prefix (key e) = true)
       (to_entry <$> map_to_list (data s))).

End Kv.

(** ** Array helpers *)

(** [Array.prototype.sort(compareFn)] is a stable sort: [a] is placed
    before [b] when [compareFn(a, b) <= 0] and [a] came first. *)
Definition sort {A} (compareFn : A → A → Z) (l : list A) : list A :=
  stable_sort (λ a b, compareFn a b <=? 0) l.

(** [Array.prototype.slice(start, end)] for indices within [0 .. 2^53]. *)
Definition slice {A} (start stop : nat) (l : list A) : list A :=
  take (stop - start) (drop start l).

(** ** External collaborators *)

Module Djwt.

Inductive Algorithm := HS256 | HS384 | HS512 | none.

Record Header := mkHeader {
  alg : Algorithm;
  typ : string
}.

Record Payload := mkPayload {
  sub : string;
  iat : Z;
  exp : Z
}.

End Djwt.

(** Data handed to the template [views/index.eta]. *)
Record View := mkView {
  v_users : list User;
  v_timestamp : string
}.

(** What the process receives from outside: its environment variables,
    the successive readings of the system clock, and the library
    functions whose code is not part of the repository.  [bcrypt n] is
    [hashSync] under the [n]-th salt it draws. *)
Record Env := mkEnv {
  env_vars : gmap string string;
  clock : nat → Z;
  bcrypt : nat → string → string;
  encode_header : Djwt.Header → string;
  encode_payload : Djwt.Payload → string;
  sign : Djwt.Algorithm → string → string → string;
  renderFile : string → View → string;
  toLocaleString : Z → string
}.

(** djwt's [create], a library function: it returns the compact
    serialisation [base64url(header).base64url(payload).signature], the
    signature being computed over the first two parts with the header's
    algorithm and the key.  The encodings and the signing primitive
    themselves are left to the environment. *)
Definition create (env : Env) (header : Djwt.Header) (payload : Djwt.Payload)
    (key : string) : string :=
  let signingInput := encode_header env header +:+ "." +:+ encode_payload env payload in
  signingInput +:+ "." +:+ sign env (Djwt.alg header) key signingInput.

(** [CONFIG.JWT_SECRET]: [env.JWT_SECRET || "super_secret_key_123!"]. *)
Definition JWT_SECRET (env : Env) : string :=
  match env_vars env !! "JWT_SECRET" with
  | Some s => if bool_decide (s = "") then "super_secret_key_123!" else s
  | None => "super_secret_key_123!"
  end.

(** ** Handlers as programs *)

(** A handler either finishes with a response body, throws, or performs
    an effect and continues with its result.  What is thrown is an HTTP
    error ([ctx.throw(status, message)]) or another exception, which oak
    answers with status 500 and which is kept under its name.  [KvList] stands for the whole [for await] loop over
    [denoKv.list]: the entries are those of the store at one moment. *)
Inductive Prog (A : Type) : Type :=
| Ret (a : A)
| Throw (status : Z) (message : string)
| KvGet (k : Kv.KvKey) (cont : Kv.KvEntryMaybe → Prog A)
| KvList (prefix : Kv.KvKey) (cont : list Kv.KvEntry → Prog A)
| KvCommit (op : Kv.AtomicOperation) (cont : Kv.KvCommitResult → Prog A)
| DateNow (cont : Z → Prog A)
| HashSync (plaintext : string) (cont : string → Prog A).

Arguments Ret {A} a.
Arguments Throw {A} status message.
Arguments KvGet {A} k cont.
Arguments KvList {A} prefix cont.
Arguments KvCommit {A} op cont.
Arguments DateNow {A} cont.
Arguments HashSync {A} plaintext cont.

Fixpoint bind {A B} (m : Prog A) (f : A → Prog B) : Prog B :=
  match m with
  | Ret a => f a
  | Throw status message => Throw status message
  | KvGet k cont => KvGet k (λ x, bind (cont x) f)
  | KvList prefix cont => KvList prefix (λ x, bind (cont x) f)
  | KvCommit op cont => KvCommit op (λ x, bind (cont x) f)
  | DateNow cont => DateNow (λ x, bind (cont x) f)
  | HashSync plaintext cont => HashSync plaintext (λ x, bind (cont x) f)
  end.

Global Instance Prog_ret : MRet Prog := λ A a, Ret a.
Global Instance Prog_bind : MBind Prog := λ A B f m, bind m f.

Definition kv_get (k : Kv.KvKey) : Prog Kv.KvEntryMaybe := KvGet k Ret.
Definition kv_list (prefix : Kv.KvKey) : Prog (list Kv.KvEntry) := KvList prefix Ret.
Definition kv_commit (op : Kv.AtomicOperation) : Prog Kv.KvCommitResult := KvCommit op Ret.
Definition date_now : Prog Z := DateNow Ret.
Definition hashSync (plaintext : string) : Prog string := HashSync plaintext Ret.

(** Response bodies of the three routes. *)
Record PublicUser := mkPublicUser {
  pu_username : string
}.

Record RegisterResponse := mkRegisterResponse {
  success : bool;
  token : string;
  user : PublicUser
}.

Record HealthResponse := mkHealthResponse {
  status : string;
  timestamp : Z
}.

Inductive Body :=
| BodyHtml (page : string)
| BodyRegister (r : RegisterResponse)
| BodyHealth (h : HealthResponse).

(** The credentials of a registration request whose [username] and
    [password] are strings where present ([interface User]); an absent
    field is [undefined].  Request bodies of any shape are [JsValue]s,
    below. *)
Record RegisterRequest := mkRegisterRequest {
  req_username : option string;
  req_password : option string
}.

(** [!v] for a string or [undefined]. *)
Definition falsy (v : option string) : bool :=
  match v with
  | None => true
  | Some s => bool_decide (s = "")
  end.

(** The comparator of the listing: [b.createdAt.getTime() - a.createdAt.getTime()]. *)
Definition compareFn (a b : User) : Z := createdAt b - createdAt a.

(** [GET /], up to the call of the renderer: the object literal passed
    to [renderFile]. *)
Definition index_view (env : Env) : Prog View :=
  entries ← kv_list ["users"];
  let users := Kv.value <$> entries in
  let listed := slice 0 10 (sort compareFn users) in
  now ← date_now;
  mret {| v_users := listed; v_timestamp := toLocaleString env now |}.

Definition get_root (env : Env) : Prog Body :=
  view ← index_view env;
  mret (BodyHtml (renderFile env "views/index.eta" view)).

(** The payload literal of [createJwt]: [Date.now()] is evaluated once for
    [iat] and once more for [exp]. *)
Definition jwt_payload (username : string) : Prog Djwt.Payload :=
  iat ← date_now;
  now ← date_now;
  mret {| Djwt.sub := username; Djwt.iat := iat; Djwt.exp := now + 3600000 |}.

Definition createJwt (env : Env) (username : string) : Prog string :=
  payload ← jwt_payload username;
  mret (create env {| Djwt.alg := Djwt.HS256; Djwt.typ := "JWT" |} payload (JWT_SECRET env)).

(** [POST /api/register]. *)
Definition register (env : Env) (body : RegisterRequest) : Prog Body :=
  let username := req_username body in
  let password := req_password body in
  if falsy username || falsy password then
    Throw 400 "用户名和密码不能为空"
  else
  let username := default "" username in
  let password := default "" password in
  if (utf16_length password <? 6)%nat then
    Throw 400 "密码至少需要6位"
  else
  let userKey := ["users"; username] in
  existingUser ← kv_get userKey;
  if bool_decide (is_Some (Kv.m_value existingUser)) then
    Throw 409 "用户已存在"
  else
  hash ← hashSync password;
  now ← date_now;
  let user := {| username := username; password := hash; createdAt := now |} in
  commitResult ← kv_commit
    (Kv.set userKey user
       (Kv.check {| Kv.c_key := userKey; Kv.c_versionstamp := None |} Kv.atomic));
  if negb (Kv.ok commitResult) then
    Throw 500 "用户注册失败"
  else
  token ← createJwt env username;
  mret (BodyRegister
          {| success := true; token := token; user := {| pu_username := username |} |}).

(** ** Request bodies *)

(** What [await ctx.request.body().value] gives the handler: [undefined]
    for a request without a body, else the value of the JSON text.  An
    object is the list of its members in the order of the text; of two
    members with one name the later one counts. *)
#[local] Unset Elimination Schemes.
Inductive JsValue :=
| JsUndefined
| JsNull
| JsBoolean (b : bool)
| JsNumber (x : float)
| JsString (s : string)
| JsArray (items : list JsValue)
| JsObject (members : list (string * JsValue)).
#[local] Set Elimination Schemes.

Definition member (name : string) (members : list (string * JsValue)) : JsValue :=
  foldl (λ found m, if bool_decide (m.1 = name) then m.2 else found) JsUndefined members.

(** [v.name] for a value that is neither [undefined] nor [null] and a
    name that no prototype defines, as [username] and [password]. *)
Definition property (name : string) (v : JsValue) : JsValue :=
  match v with
  | JsObject members => member name members
  | _ => JsUndefined
  end.

(** The truth value of [v]: [!v] is its negation. *)
Definition ToBoolean (v : JsValue) : bool :=
  match v with
  | JsUndefined | JsNull => false
  | JsBoolean b => b
  | JsNumber x => negb (is_zero x || is_nan x)
  | JsString s => negb (bool_decide (s = ""))
  | JsArray _ | JsObject _ => true
  end.

(** [v < 6], a comparison of numbers: [undefined] converts to NaN, [null]
    and [false] to 0, [true] to 1; the conversion of a string, an array or
    an object is the runtime's [ToNumber], a parameter here. *)
Definition less_than_six (ToNumber : JsValue → float) (v : JsValue) : bool :=
  match v with
  | JsUndefined => false
  | JsNull | JsBoolean _ => true
  | JsNumber x => (x <? 6)%float
  | JsString _ | JsArray _ | JsObject _ => (ToNumber v <? 6)%float
  end.

(** [password.length < 6] for a [password] that is neither [undefined]
    nor [null]: a string has its number of code units, an array its number
    of elements, an object the member of that name if it has one; numbers
    and booleans have no [length]. *)
Definition too_short (ToNumber : JsValue → float) (password : JsValue) : bool :=
  match password with
  | JsString s => (utf16_length s <? 6)%nat
  | JsArray items => (length items <? 6)%nat
  | JsObject members => less_than_six ToNumber (member "length" members)
  | _ => false
  end.

(** Lines 52 to 61 of [POST /api/register]: the destructuring of the
    body, which throws a TypeError when there is none, and the two guards. *)
Inductive Validation :=
| TypeError
| HttpError (status : Z) (message : string)
| Passed (username password : JsValue).

Definition validate (ToNumber : JsValue → float) (body : JsValue) : Validation :=
  match body with
  | JsUndefined | JsNull => TypeError
  | _ =>
      let username := property "username" body in
      let password := property "password" body in
      if negb (ToBoolean username) || negb (ToBoolean password) then
        HttpError 400 "用户名和密码不能为空"
      else if too_short ToNumber password then
        HttpError 400 "密码至少需要6位"
      else
        Passed username password
  end.

(** [POST /api/register] on any body.  With credentials that are strings
    the handler goes on as [register] does, whose guards repeat the two
    just passed.  With credentials that pass the guards and are not both
    strings (a number as username, an array of six elements as password)
    lines 63 to 93 hand Deno KV, bcrypt and djwt values outside the types
    they declare; that continuation is not modelled, and the result is
    [None]. *)
Definition post_register (env : Env) (ToNumber : JsValue → float) (body : JsValue)
  : option (Prog Body) :=
  match validate ToNumber body with
  | TypeError => Some (Throw 500 "TypeError")
  | HttpError status message => Some (Throw status message)
  | Passed (JsString username) (JsString password) =>
      Some (register env {| req_username := Some username; req_password := Some password |})
  | Passed _ _ => None
  end.

(** The JSON object of a request with the given credentials. *)
Definition to_json (body : RegisterRequest) : JsValue :=
  JsObject
    (from_option (λ username, [("username", JsString username)]) [] (req_username body) ++
     from_option (λ password, [("password", JsString password)]) [] (req_password body)).

(** [GET /health]. *)
Definition health : Prog Body :=
  now ← date_now;
  mret (BodyHealth {| status := "healthy"; timestamp := now |}).

(** The router. *)
Inductive Request :=
| GetRoot
| PostRegister (body : RegisterRequest)
| GetHealth.

Definition handler (env : Env) (r : Request) : Prog Body :=
  match r with
  | GetRoot => get_root env
  | PostRegister body => register env body
  | GetHealth => health
  end.

(** ** Running programs *)

(** The state shared by all requests: the store, and how many clock
    readings and salts have been handed out so far. *)
Record World := mkWorld {
  kv : Kv.Store;
  clock_reads : nat;
  salts_drawn : nat
}.

Definition initial : World :=
  {| kv := Kv.empty; clock_reads := 0; salts_drawn := 0 |}.

Inductive Outcome (A : Type) : Type :=
| Returned (a : A)
| Thrown (status : Z) (message : string).

Arguments Returned {A} a.
Arguments Thrown {A} status message.

Definition do_commit (op : Kv.AtomicOperation) (w : World) : Kv.KvCommitResult * World :=
  let '(r, s) := Kv.commit op (kv w) in
  (r, {| kv := s; clock_reads := clock_reads w; salts_drawn := salts_drawn w |}).

Definition do_now (env : Env) (w : World) : Z * World :=
  (clock env (clock_reads w),
   {| kv := kv w; clock_reads := S (clock_reads w); salts_drawn := salts_drawn w |}).

Definition do_hash (env : Env) (plaintext : string) (w : World) : string * World :=
  (bcrypt env (salts_drawn w) plaintext,
   {| kv := kv w; clock_reads := clock_reads w; salts_drawn := S (salts_drawn w) |}).

(** One step: the effect at the head of the program is performed on the
    world.  A finished program does not move. *)
Definition step {A} (env : Env) (m : Prog A) (w : World) : Prog A * World :=
  match m with
  | Ret _ | Throw _ _ => (m, w)
  | KvGet k cont => (cont (Kv.get k (kv w)), w)
  | KvList prefix cont => (cont (Kv.list prefix (kv w)), w)
  | KvCommit op cont => let '(r, w') := do_commit op w in (cont r, w')
  | DateNow cont => let '(t, w') := do_now env w in (cont t, w')
  | HashSync plaintext cont => let '(h, w') := do_hash env plaintext w in (cont h, w')
  end.

(** Whatever else happens to the world between two steps of a request:
    one transformation per step, the identity once the list is used up. *)
Definition interfere (others : list (World → World)) (w : World) : World :=
  match others with
  | [] => w
  | f :: _ => f w
  end.

(** A request run to completion.  Before each of its steps the next
    interference is applied.  The result carries the outcome, the final
    world, and for each of the request's own steps the store before and
    after it. *)
Fixpoint run {A} (env : Env) (others : list (World → World)) (m : Prog A) (w : World)
  : Outcome A * World * list (Kv.Store * Kv.Store) :=
  let w0 := interfere others w in
  let rest := tail others in
  let continue (m' : Prog A) (w' : World) :=
    let '(o, w'', log) := run env rest m' w' in
    (o, w'', (kv w0, kv w') :: log) in
  match m with
  | Ret a => (Returned a, w, [])
  | Throw status message => (Thrown status message, w, [])
  | KvGet k cont => continue (cont (Kv.get k (kv w0))) w0
  | KvList prefix cont => continue (cont (Kv.list prefix (kv w0))) w0
  | KvCommit op cont => let '(r, w') := do_commit op w0 in continue (cont r) w'
  | DateNow cont => let '(t, w') := do_now env w0 in continue (cont t) w'
  | HashSync plaintext cont => let '(h, w') := do_hash env plaintext w0 in continue (cont h) w'
  end.

(** The stores a request changed by its own steps. *)
Definition writes (log : list (Kv.Store * Kv.Store)) : list (Kv.Store * Kv.Store) :=
  filter (λ ba, ba.1 ≠ ba.2) log.

(** The outcomes a program can end with, whatever its effects answer. *)
Fixpoint may_end {A} (m : Prog A) (o : Outcome A) : Prop :=
  match m with
  | Ret a => o = Returned a
  | Throw status message => o = Thrown status message
  | KvGet _ cont => ∃ x, may_end (cont x) o
  | KvList _ cont => ∃ x, may_end (cont x) o
  | KvCommit _ cont => ∃ x, may_end (cont x) o
  | DateNow cont => ∃ x, may_end (cont x) o
  | HashSync _ cont => ∃ x, may_end (cont x) o
  end.

(** ** Concurrent requests *)

(** The server: the world and the requests in flight, each with the part
    of its handler that is still to run. *)
Record Server := mkServer {
  world : World;
  threads : list (Request * Prog Body)
}.

Definition boot : Server := {| world := initial; threads := [] |}.

Inductive Action :=
| Accept (r : Request)
| Advance (i : nat).

Definition serve (env : Env) (s : Server) (a : Action) : Server :=
  match a with
  | Accept r => {| world := world s; threads := threads s ++ [(r, handler env r)] |}
  | Advance i =>
      match threads s !! i with
      | Some (r, m) =>
          let '(m', w') := step env m (world s) in
          {| world := w'; threads := <[i := (r, m')]> (threads s) |}
      | None => s
      end
  end.

Definition exec (env : Env) (acts : list Action) (s : Server) : Server :=
  foldl (serve env) s acts.

(** ** Sample inputs *)

(** An environment to evaluate the handlers in: no variables set, a clock
    that advances by one millisecond per reading, and stand-ins for the
    library functions. *)
Definition sample_env : Env := {|
  env_vars := ∅;
  clock := λ n, 1700000000000 + Z.of_nat n;
  bcrypt := λ n plaintext, "$2a$10$" +:+ plaintext;
  encode_header := λ _, "e30";
  encode_payload := λ p, Djwt.sub p;
  sign := λ _ key _, key;
  renderFile := λ path _, path;
  toLocaleString := λ _, "11/2/2026, 9:00:00 AM"
|}.

Definition alice : RegisterRequest :=
  {| req_username := Some "alice"; req_password := Some "hunter2" |}.

Definition bob : RegisterRequest :=
  {| req_username := Some "bob"; req_password := Some "abc" |}.

(** A stand-in for the runtime's [ToNumber]: the conversion of a text
    that is not a number. *)
Definition sample_ToNumber : JsValue → float := λ _, nan.

(** A request whose password is the empty array. *)
Definition empty_array_password : JsValue :=
  JsObject [("username", JsString "bob"); ("password", JsArray [])].

(** ** Predicates of the specification *)

(** A credential is missing or empty. *)
Definition missing_or_empty (v : option string) : Prop :=
  v = None ∨ v = Some "".

(** The request fails validation: a credential is missing or empty, or
    the password has a length below six. *)
Definition invalid (body : RegisterRequest) : Prop :=
  missing_or_empty (req_username body) ∨
  missing_or_empty (req_password body) ∨
  ∃ p, req_password body = Some p ∧ (utf16_length p < 6)%nat.

(** What the listing is specified to show of a user. *)
Definition public (u : User) : string * Z := (username u, createdAt u).

(** Two stores hold the same usernames and creation times under the same
    keys; password hashes and versionstamps may differ. *)
Definition same_public (s1 s2 : Kv.Store) : Prop :=
  (λ e : User * N, public e.1) <$> Kv.data s1 = (λ e : User * N, public e.1) <$> Kv.data s2.

(** The user records held under the [users] prefix, in no particular order. *)
Definition stored_users (s : Kv.Store) : list User :=
  Kv.value <$>
    filter (λ e, Kv.has_prefix ["users"] (Kv.key e) = true)
      (Kv.to_entry <$> map_to_list (Kv.data s)).

(** Most recent first. *)
Definition newer_first (a b : User) : Prop := createdAt b ≤ createdAt a.

(** Strictly older first. *)
Definition older_before (a b : User) : Prop := createdAt a < createdAt b.

(** The operation of the registration handler: create [u] under
    [["users", username]] provided the key has no versionstamp. *)
Definition conditional_create (op : Kv.AtomicOperation) : Prop :=
  ∃ u, op = Kv.set ["users"; username u] u
              (Kv.check {| Kv.c_key := ["users"; username u]; Kv.c_versionstamp := None |}
                 Kv.atomic).

(** Every write a program can reach is a conditional create. *)
Fixpoint only_creates {A} (m : Prog A) : Prop :=
  match m with
  | Ret _ | Throw _ _ => True
  | KvGet _ cont => ∀ x, only_creates (cont x)
  | KvList _ cont => ∀ x, only_creates (cont x)
  | KvCommit op cont => conditional_create op ∧ ∀ x, only_creates (cont x)
  | DateNow cont => ∀ x, only_creates (cont x)
  | HashSync _ cont => ∀ x, only_creates (cont x)
  end.

(** Every record sits under the key made from its own username. *)
Definition keyed_by_username (s : Kv.Store) : Prop :=
  ∀ k e, Kv.data s !! k = Some e → k = ["users"; username e.1].

Definition server_inv (s : Server) : Prop :=
  keyed_by_username (kv (world s)) ∧ Forall (λ t, only_creates t.2) (threads s).

(** Modelled from the spec: [hashSync] belongs to the bcrypt library, whose
    code is not part of the repository.  The specification calls it a
    one-way transform whose result is never the plaintext it was given
    (sections 3 and 4.1); that is all that is assumed of it, and only
    where stated. *)
Definition one_way (env : Env) : Prop :=
  ∀ n plaintext, bcrypt env n plaintext ≠ plaintext.

(** Modelled from the spec: the template [views/index.eta] belongs to the
    repository but is not among its sources here.  The specification
    describes the page as the list of recent users, by username and
    creation time, with the time of rendering (sections 4.5 and 6): a
    template that reads nothing else of the view it is given. *)
Definition template_reads_public (env : Env) : Prop :=
  ∀ path v v',
    public <$> v_users v = public <$> v_users v' →
    v_timestamp v = v_timestamp v' →
    renderFile env path v = renderFile env path v'.

(** The environment with another hash function. *)
Definition with_bcrypt (h : nat → string → string) (env : Env) : Env :=
  {| env_vars := env_vars env; clock := clock env; bcrypt := h;
     encode_header := encode_header env; encode_payload := encode_payload env;
     sign := sign env; renderFile := renderFile env;
     toLocaleString := toLocaleString env |}.

(** ** The effect of a registration *)

(** The record a registration creates in world [w] when nothing
    interferes, and the store after its commit. *)
Definition new_user (env : Env) (u p : string) (w : World) : User :=
  {| username := u; password := bcrypt env (salts_drawn w) p;
     createdAt := clock env (clock_reads w) |}.

Definition store_after (env : Env) (u p : string) (w : World) : Kv.Store :=
  {| Kv.data := <[["users"; u] := (new_user env u p w, N.succ (Kv.commits (kv w)))]>
                  (Kv.data (kv w));
     Kv.commits := N.succ (Kv.commits (kv w)) |}.

(** ** Further sample inputs *)

(** Twelve users registered one after the other, and the records that
    leaves in the store. *)
Definition register_all (env : Env) (names : list string) (w : World) : World :=
  foldl (λ w name,
           (run env []
              (register env {| req_username := Some name; req_password := Some "hunter2" |})
              w).1.2)
        w names.

Definition twelve_names : list string :=
  ["mia"; "bob"; "zoe"; "ann"; "tom"; "eve"; "sam"; "kim"; "lee"; "joe"; "amy"; "max"].

Definition twelve_users : list User :=
  imap (λ i name,
          {| username := name; password := "$2a$10$hunter2";
             createdAt := 1700000000000 + 3 * Z.of_nat i |})
       twelve_names.

Definition twelve_world : World := register_all sample_env twelve_names initial.

(** A store with one user, and a world around a store. *)
Definition store_with (hash : string) : Kv.Store :=
  {| Kv.data :=
       {[ ["users"; "alice"] :=
            ({| username := "alice"; password := hash; createdAt := 1700000000000 |}, 1%N) ]};
     Kv.commits := 1 |}.

Definition world_with (s : Kv.Store) : World :=
  {| kv := s; clock_reads := 0; salts_drawn := 0 |}.

(** Two requests for the same username whose steps alternate: both pass
    the look-up, the first commit creates the record and the second one
    fails. *)
Definition race : list Action :=
  [Accept (PostRegister alice); Accept (PostRegister alice);
   Advance 0; Advance 1; Advance 0; Advance 1; Advance 0; Advance 1;
   Advance 0; Advance 1; Advance 0; Advance 1; Advance 0; Advance 1].

(** ** The application *)

(** [ctx.response], as far as the middleware and the routes write it:
    the headers by name and the body. *)
Record Response := mkResponse {
  headers : gmap string string;
  body : option Body
}.

Definition fresh_response : Response := {| headers := ∅; body := None |}.

(** [ctx.response.headers.set(name, value)]; a header is looked up under
    the name it was set with. *)
Definition set_header (name value : string) (res : Response) : Response :=
  {| headers := <[name := value]> (headers res); body := body res |}.

(** The middleware registered by [app.use]: two headers, then [next()]. *)
Definition middleware (next : Response → Prog Response) (res : Response) : Prog Response :=
  let res := set_header "X-Content-Type-Options" "nosniff" res in
  let res := set_header "X-Frame-Options" "DENY" res in
  next res.

(** [router.routes()]: the handler of the route assigns the body. *)
Definition routes (env : Env) (r : Request) (res : Response) : Prog Response :=
  b ← handler env r;
  mret {| headers := headers res; body := Some b |}.

Definition app (env : Env) (r : Request) : Prog Response :=
  middleware (routes env r) fresh_response.

(** ** Further predicates *)

(** [m'] is what is left of [m] after some of its effects were answered. *)
Fixpoint residual {A} (m m' : Prog A) : Prop :=
  m' = m ∨
  match m with
  | Ret _ | Throw _ _ => False
  | KvGet _ cont => ∃ x, residual (cont x) m'
  | KvList _ cont => ∃ x, residual (cont x) m'
  | KvCommit _ cont => ∃ x, residual (cont x) m'
  | DateNow cont => ∃ x, residual (cont x) m'
  | HashSync _ cont => ∃ x, residual (cont x) m'
  end.

(** Whatever its remaining effects answer, the program ends by returning. *)
Definition will_return {A} (m : Prog A) : Prop :=
  ∀ o, may_end m o → ∃ a, o = Returned a.

(** The thread serves a registration of username [u]. *)
Definition registering (u : string) (t : Request * Prog Body) : Prop :=
  ∃ b, t.1 = PostRegister b ∧ req_username b = Some u.

(** Every thread is a residual of its handler; a registration that can no
    longer fail has its record in the store, and no two registrations of
    one username are in that state. *)
Definition exclusive (env : Env) (s : Server) : Prop :=
  Forall (λ t, residual (handler env t.1) t.2) (threads s) ∧
  (∀ i t u, threads s !! i = Some t → registering u t → will_return t.2 →
            is_Some (Kv.data (kv (world s)) !! ["users"; u])) ∧
  (∀ i j ti tj u,
     threads s !! i = Some ti → threads s !! j = Some tj →
     registering u ti → registering u tj →
     will_return ti.2 → will_return tj.2 → i = j).

(** Later readings of the clock are strictly greater. *)
Definition ticking (env : Env) : Prop :=
  ∀ n m, (n < m)%nat → clock env n < clock env m.

(** The world after an undisturbed registration of [u] in [w]. *)
Definition world_after (env : Env) (u p : string) (w : World) : World :=
  {| kv := store_after env u p w; clock_reads := S (S (S (clock_reads w)));
     salts_drawn := S (salts_drawn w) |}.

(** Registrations one after the other, each with its own username and
    password, and the records they create, in the order of registration. *)
Definition register_each (env : Env) (credentials : list (string * string)) (w : World)
  : World :=
  foldl (λ w c,
           (run env []
              (register env {| req_username := Some c.1; req_password := Some c.2 |})
              w).1.2)
        w credentials.

Fixpoint created (env : Env) (credentials : list (string * string)) (w : World)
  : list User :=
  match credentials with
  | [] => []
  | c :: credentials' =>
      new_user env c.1 c.2 w :: created env credentials' (world_after env c.1 c.2 w)
  end.

Definition three_credentials : list (string * string) :=
  [("mia", "hunter2"); ("bob", "密码密码密码"); ("zoe", "correct horse")].

(** The outcome of a program followed by a pure function. *)
Definition outcome_map {A B} (f : A → B) (o : Outcome A) : Outcome B :=
  match o with
  | Returned a => Returned (f a)
  | Thrown status message => Thrown status message
  end.

(** The sample environment with the variable [JWT_SECRET] set. *)
Definition configured_env : Env := {|
  env_vars := {[ "JWT_SECRET" := "s3cret" ]};
  clock := clock sample_env;
  bcrypt := bcrypt sample_env;
  encode_header := encode_header sample_env;
  encode_payload := encode_payload sample_env;
  sign := sign sample_env;
  renderFile := renderFile sample_env;
  toLocaleString := toLocaleString sample_env
|}.

(** * Properties *)

(** ** Sorting *)

Section stable_sort.
Context {A : Type} (leb : A → A → bool).

Lemma insert_by_Permutation x l : insert_by leb x l ≡ₚ x :: l.
Proof.
  induction l as [|y l IH]; simpl; [done|].
  destruct (leb x y); [done|]. rewrite IH. apply Permutation_swap.
Qed.

Lemma stable_sort_Permutation l : stable_sort leb l ≡ₚ l.
Proof.
  induction l as [|x l IH]; simpl; [done|].
  unfold stable_sort in *; simpl. by rewrite insert_by_Permutation, IH.
Qed.

Hypothesis leb_total : ∀ x y, leb x y = true ∨ leb y x = true.
Hypothesis leb_trans : ∀ x y z, leb x y = true → leb y z = true → leb x z = true.

Lemma insert_by_sorted x l :
  StronglySorted (λ a b, leb a b = true) l →
  StronglySorted (λ a b, leb a b = true) (insert_by leb x l).
Proof.
  induction 1 as [|y l Hl IH Hy]; simpl.
  - repeat constructor.
  - destruct (leb x y) eqn:Hxy.
    + constructor; [by constructor|].
      constructor; [done|]. eapply Forall_impl; [exact Hy|]. simpl. eauto.
    + constructor; [done|].
      rewrite insert_by_Permutation. constructor; [|done].
      destruct (leb_total x y); congruence.
Qed.

Lemma stable_sort_sorted l :
  StronglySorted (λ a b, leb a b = true) (stable_sort leb l).
Proof.
  induction l as [|x l IH]; [constructor|]. by apply insert_by_sorted.
Qed.
End stable_sort.

Lemma insert_by_fmap {A B} (g : A → B) (leb : A → A → bool) (leb' : B → B → bool) x l :
  (∀ x y, leb' (g x) (g y) = leb x y) →
  insert_by leb' (g x) (g <$> l) = g <$> insert_by leb x l.
Proof.
  intros Hg. induction l as [|y l IH]; [done|].
  rewrite fmap_cons. simpl. rewrite Hg.
  destruct (leb x y); [done|]. by rewrite fmap_cons, IH.
Qed.

Lemma stable_sort_fmap {A B} (g : A → B) (leb : A → A → bool) (leb' : B → B → bool) l :
  (∀ x y, leb' (g x) (g y) = leb x y) →
  stable_sort leb' (g <$> l) = g <$> stable_sort leb l.
Proof.
  intros Hg. induction l as [|x l IH]; [done|].
  change (insert_by leb' (g x) (stable_sort leb' (g <$> l)) =
          g <$> insert_by leb x (stable_sort leb l)).
  rewrite IH. by apply insert_by_fmap.
Qed.

Lemma filter_fmap_commute {A B} (g : A → B) (P : A → Prop) (Q : B → Prop)
    `{∀ x, Decision (P x)} `{∀ y, Decision (Q y)} (l : list A) :
  (∀ x, P x ↔ Q (g x)) → g <$> filter P l = filter Q (g <$> l).
Proof.
  intros HPQ. induction l as [|x l IH]; [done|].
  rewrite fmap_cons, !filter_cons.
  destruct (decide (P x)) as [HP|HP], (decide (Q (g x))) as [HQ|HQ].
  - by rewrite fmap_cons, IH.
  - by apply HPQ in HP.
  - by apply HPQ in HQ.
  - done.
Qed.

Lemma sort_Permutation {A} (cmp : A → A → Z) l : sort cmp l ≡ₚ l.
Proof. apply stable_sort_Permutation. Qed.

Lemma sort_newer_first l : StronglySorted newer_first (sort compareFn l).
Proof.
  assert (StronglySorted (λ a b, (compareFn a b <=? 0) = true) (sort compareFn l)) as Hs.
  { apply stable_sort_sorted; unfold compareFn; intros; lia. }
  induction Hs as [|x l' _ IH Hx]; constructor; [done|].
  eapply Forall_impl; [exact Hx|]. unfold newer_first, compareFn. intros; lia.
Qed.

Lemma older_before_inj us x y :
  StronglySorted older_before us → x ∈ us → y ∈ us → createdAt x = createdAt y → x = y.
Proof.
  unfold older_before.
  induction 1 as [|z us _ IH Hz]; intros Hx Hy Heq; [by inv Hx|].
  rewrite Forall_forall in Hz.
  inv Hx; inv Hy; try done; try (exfalso; ospecialize (Hz _ _); [eassumption|lia]).
  by apply IH.
Qed.

Lemma reverse_newer_first us :
  StronglySorted older_before us → StronglySorted newer_first (reverse us).
Proof.
  induction 1 as [|x us _ IH Hx]; [constructor|].
  rewrite reverse_cons. apply StronglySorted_app_2; [|done|repeat constructor].
  intros a b Ha Hb. apply list_elem_of_singleton in Hb as ->.
  rewrite elem_of_reverse in Ha. rewrite Forall_forall in Hx.
  specialize (Hx a Ha). unfold older_before, newer_first in *. lia.
Qed.

(** ** The store *)

Lemma commit_create s k u :
  Kv.commit
    (Kv.set k u (Kv.check {| Kv.c_key := k; Kv.c_versionstamp := None |} Kv.atomic)) s =
  match Kv.data s !! k with
  | None =>
      ({| Kv.ok := true; Kv.r_versionstamp := Some (N.succ (Kv.commits s)) |},
       {| Kv.data := <[k := (u, N.succ (Kv.commits s))]> (Kv.data s);
          Kv.commits := N.succ (Kv.commits s) |})
  | Some _ => ({| Kv.ok := false; Kv.r_versionstamp := None |}, s)
  end.
Proof.
  unfold Kv.commit, Kv.set, Kv.check, Kv.atomic, Kv.check_holds. simpl.
  by destruct (Kv.data s !! k) as [e|].
Qed.

Lemma commit_changes_store s d :
  s ≠ {| Kv.data := d; Kv.commits := N.succ (Kv.commits s) |}.
Proof. destruct s as [d0 c]. simpl. intros [= _ Hc]. lia. Qed.

Lemma writes_cons_same s log : writes ((s, s) :: log) = writes log.
Proof. unfold writes. by rewrite filter_cons_False by (simpl; tauto). Qed.

Lemma writes_cons_commit s d log :
  writes ((s, {| Kv.data := d; Kv.commits := N.succ (Kv.commits s) |}) :: log) =
  (s, {| Kv.data := d; Kv.commits := N.succ (Kv.commits s) |}) :: writes log.
Proof.
  unfold writes. rewrite filter_cons_True; [done|]. simpl. apply commit_changes_store.
Qed.

(** ** Registration *)

Lemma falsy_missing_or_empty v : falsy v = true ↔ missing_or_empty v.
Proof.
  unfold missing_or_empty. destruct v as [s|]; simpl.
  - rewrite bool_decide_eq_true. split; [intros ->; by right|].
    by intros [|[= ->]].
  - split; [by left|done].
Qed.

(** The handler on a request that fails validation: nothing but the throw. *)
Lemma register_invalid env body :
  invalid body →
  register env body = Throw 400 "用户名和密码不能为空" ∨
  register env body = Throw 400 "密码至少需要6位".
Proof.
  intros Hinv. unfold register.
  destruct (falsy (req_username body) || falsy (req_password body)) eqn:Hf; [by left|].
  right. apply orb_false_iff in Hf as [Hu Hp].
  destruct Hinv as [Hinv|[Hinv|(p & Hpw & Hlen)]].
  - apply falsy_missing_or_empty in Hinv. congruence.
  - apply falsy_missing_or_empty in Hinv. congruence.
  - rewrite Hpw. simpl. by rewrite (proj2 (Nat.ltb_lt _ _) Hlen).
Qed.

(** The handler on a request that passes validation. *)
Lemma register_valid env u p :
  u ≠ "" → (6 ≤ utf16_length p)%nat →
  register env {| req_username := Some u; req_password := Some p |} =
  KvGet ["users"; u] (λ existingUser,
    if bool_decide (is_Some (Kv.m_value existingUser)) then Throw 409 "用户已存在"
    else
      HashSync p (λ hash, DateNow (λ now,
        KvCommit
          (Kv.set ["users"; u] {| username := u; password := hash; createdAt := now |}
             (Kv.check {| Kv.c_key := ["users"; u]; Kv.c_versionstamp := None |} Kv.atomic))
          (λ commitResult,
             if negb (Kv.ok commitResult) then Throw 500 "用户注册失败"
             else
               DateNow (λ iat, DateNow (λ now',
                 Ret (BodyRegister
                   {| success := true;
                      token := create env {| Djwt.alg := Djwt.HS256; Djwt.typ := "JWT" |}
                                 {| Djwt.sub := u; Djwt.iat := iat; Djwt.exp := now' + 3600000 |}
                                 (JWT_SECRET env);
                      user := {| pu_username := u |} |}))))))).
Proof.
  intros Hu Hp. unfold register. simpl.
  rewrite bool_decide_eq_false_2 by done.
  assert (p ≠ "") as Hne by (intros ->; simpl in Hp; lia).
  rewrite bool_decide_eq_false_2 by done. simpl.
  by rewrite (proj2 (Nat.ltb_ge _ _) Hp).
Qed.

Lemma valid_or_invalid body :
  invalid body ∨
  ∃ u p, body = {| req_username := Some u; req_password := Some p |} ∧
         u ≠ "" ∧ (6 ≤ utf16_length p)%nat.
Proof.
  destruct body as [[u|] [p|]]; unfold invalid, missing_or_empty; simpl; try naive_solver.
  destruct (decide (u = "")) as [->|Hu]; [naive_solver|].
  destruct (decide (utf16_length p < 6)%nat) as [Hp|Hp]; [naive_solver|].
  right. exists u, p. split_and!; [done..|lia].
Qed.

(** Inversion of a run at its first step. *)
Section run_inv.
Context {A : Type} (env : Env) (others : list (World → World)) (w : World).
Context (o : Outcome A) (w' : World) (log : list (Kv.Store * Kv.Store)).

Lemma run_get_inv k cont :
  run env others (KvGet k cont) w = (o, w', log) →
  ∃ log',
    run env (tail others) (cont (Kv.get k (kv (interfere others w))))
      (interfere others w) = (o, w', log') ∧
    writes log = writes log'.
Proof.
  simpl. destruct (run _ _ _ _) as [[o1 w1] l1]. intros [= -> -> <-].
  eexists. split; [done|]. apply writes_cons_same.
Qed.

Lemma run_list_inv prefix cont :
  run env others (KvList prefix cont) w = (o, w', log) →
  ∃ log',
    run env (tail others) (cont (Kv.list prefix (kv (interfere others w))))
      (interfere others w) = (o, w', log') ∧
    writes log = writes log'.
Proof.
  simpl. destruct (run _ _ _ _) as [[o1 w1] l1]. intros [= -> -> <-].
  eexists. split; [done|]. apply writes_cons_same.
Qed.

Lemma run_now_inv cont :
  run env others (DateNow cont) w = (o, w', log) →
  ∃ log',
    run env (tail others) (cont (clock env (clock_reads (interfere others w))))
      {| kv := kv (interfere others w);
         clock_reads := S (clock_reads (interfere others w));
         salts_drawn := salts_drawn (interfere others w) |}
      = (o, w', log') ∧
    writes log = writes log'.
Proof.
  simpl. destruct (run _ _ _ _) as [[o1 w1] l1]. intros [= -> -> <-].
  eexists. split; [done|]. apply writes_cons_same.
Qed.

Lemma run_hash_inv plaintext cont :
  run env others (HashSync plaintext cont) w = (o, w', log) →
  ∃ log',
    run env (tail others)
      (cont (bcrypt env (salts_drawn (interfere others w)) plaintext))
      {| kv := kv (interfere others w);
         clock_reads := clock_reads (interfere others w);
         salts_drawn := S (salts_drawn (interfere others w)) |}
      = (o, w', log') ∧
    writes log = writes log'.
Proof.
  simpl. destruct (run _ _ _ _) as [[o1 w1] l1]. intros [= -> -> <-].
  eexists. split; [done|]. apply writes_cons_same.
Qed.

Lemma run_commit_inv op cont :
  run env others (KvCommit op cont) w = (o, w', log) →
  ∃ log',
    run env (tail others) (cont (Kv.commit op (kv (interfere others w))).1)
      {| kv := (Kv.commit op (kv (interfere others w))).2;
         clock_reads := clock_reads (interfere others w);
         salts_drawn := salts_drawn (interfere others w) |}
      = (o, w', log') ∧
    log = (kv (interfere others w), (Kv.commit op (kv (interfere others w))).2) :: log'.
Proof.
  simpl. unfold do_commit.
  destruct (Kv.commit op (kv (interfere others w))) as [r s'].
  simpl. destruct (run _ _ _ _) as [[o1 w1] l1]. intros [= -> -> <-].
  eexists. split; done.
Qed.
End run_inv.

Lemma run_ret {A} env others (a : A) w :
  run env others (Ret a) w = (Returned a, w, []).
Proof. done. Qed.

Lemma run_throw {A} env others status message w :
  run (A := A) env others (Throw status message) w = (Thrown status message, w, []).
Proof. done. Qed.

Arguments run : simpl never.

(** Every run of the handler on a valid request, whatever happens between
    its steps, ends in one of three ways. *)
Lemma register_run env others u p w o w' log :
  u ≠ "" → (6 ≤ utf16_length p)%nat →
  run env others (register env {| req_username := Some u; req_password := Some p |}) w
    = (o, w', log) →
  (o = Thrown 409 "用户已存在" ∧ writes log = [] ∧
     is_Some (Kv.data (kv (interfere others w)) !! ["users"; u]))
  ∨ (o = Thrown 500 "用户注册失败" ∧ writes log = [])
  ∨ (∃ n t n1 n2 s,
       o = Returned (BodyRegister
             {| success := true;
                token := create env {| Djwt.alg := Djwt.HS256; Djwt.typ := "JWT" |}
                           {| Djwt.sub := u; Djwt.iat := clock env n1;
                              Djwt.exp := clock env n2 + 3600000 |}
                           (JWT_SECRET env);
                user := {| pu_username := u |} |}) ∧
       Kv.data s !! ["users"; u] = None ∧
       writes log =
         [(s, {| Kv.data :=
                   <[["users"; u] :=
                       ({| username := u; password := bcrypt env n p; createdAt := t |},
                        N.succ (Kv.commits s))]> (Kv.data s);
                 Kv.commits := N.succ (Kv.commits s) |})]).
Proof.
  intros Hu Hp Hrun. rewrite register_valid in Hrun by done.
  apply run_get_inv in Hrun as (l1 & Hrun & ->). simpl in Hrun.
  destruct (Kv.data (kv (interfere others w)) !! ["users"; u]) as [e|] eqn:Hget;
    simpl in Hrun.
  { left. rewrite run_throw in Hrun. simplify_eq. eauto. }
  right.
  apply run_hash_inv in Hrun as (l2 & Hrun & ->).
  apply run_now_inv in Hrun as (l3 & Hrun & ->).
  apply run_commit_inv in Hrun as (l4 & Hrun & ->).
  rewrite commit_create in Hrun |- *. simpl in Hrun |- *.
  match type of Hrun with context [Kv.data ?s !! _] =>
    destruct (Kv.data s !! ["users"; u]) as [e|] eqn:Hchk end; simpl in Hrun |- *.
  { left. rewrite run_throw in Hrun. simplify_eq. by rewrite writes_cons_same. }
  right. rewrite writes_cons_commit.
  apply run_now_inv in Hrun as (l5 & Hrun & ->).
  apply run_now_inv in Hrun as (l6 & Hrun & ->).
  rewrite run_ret in Hrun. simplify_eq.
  eexists _, _, _, _, _. split_and!; [done|exact Hchk|done].
Qed.

(** Runs without interference, step by step. *)
Lemma run_seq_get {A} env k (cont : Kv.KvEntryMaybe → Prog A) w :
  run env [] (KvGet k cont) w =
  let '(o, w', log) := run env [] (cont (Kv.get k (kv w))) w in
  (o, w', (kv w, kv w) :: log).
Proof. done. Qed.

Lemma run_seq_list {A} env prefix (cont : list Kv.KvEntry → Prog A) w :
  run env [] (KvList prefix cont) w =
  let '(o, w', log) := run env [] (cont (Kv.list prefix (kv w))) w in
  (o, w', (kv w, kv w) :: log).
Proof. done. Qed.

Lemma run_seq_now {A} env (cont : Z → Prog A) w :
  run env [] (DateNow cont) w =
  let '(o, w', log) :=
    run env [] (cont (clock env (clock_reads w)))
      {| kv := kv w; clock_reads := S (clock_reads w); salts_drawn := salts_drawn w |} in
  (o, w', (kv w, kv w) :: log).
Proof. done. Qed.

Lemma run_seq_hash {A} env plaintext (cont : string → Prog A) w :
  run env [] (HashSync plaintext cont) w =
  let '(o, w', log) :=
    run env [] (cont (bcrypt env (salts_drawn w) plaintext))
      {| kv := kv w; clock_reads := clock_reads w; salts_drawn := S (salts_drawn w) |} in
  (o, w', (kv w, kv w) :: log).
Proof. done. Qed.

Lemma run_seq_commit {A} env op (cont : Kv.KvCommitResult → Prog A) w :
  run env [] (KvCommit op cont) w =
  let '(o, w', log) :=
    run env [] (cont (Kv.commit op (kv w)).1)
      {| kv := (Kv.commit op (kv w)).2; clock_reads := clock_reads w;
         salts_drawn := salts_drawn w |} in
  (o, w', (kv w, (Kv.commit op (kv w)).2) :: log).
Proof.
  unfold run at 1. simpl. unfold do_commit. by destruct (Kv.commit op (kv w)).
Qed.

Lemma register_seq_taken env u p w e :
  u ≠ "" → (6 ≤ utf16_length p)%nat →
  Kv.data (kv w) !! ["users"; u] = Some e →
  run env [] (register env {| req_username := Some u; req_password := Some p |}) w =
  (Thrown 409 "用户已存在", w, [(kv w, kv w)]).
Proof.
  intros Hu Hp Hget. rewrite register_valid by done.
  rewrite run_seq_get. simpl. by rewrite Hget.
Qed.

Lemma register_seq_fresh env u p w :
  u ≠ "" → (6 ≤ utf16_length p)%nat →
  Kv.data (kv w) !! ["users"; u] = None →
  run env [] (register env {| req_username := Some u; req_password := Some p |}) w =
  (Returned (BodyRegister
     {| success := true;
        token := create env {| Djwt.alg := Djwt.HS256; Djwt.typ := "JWT" |}
                   {| Djwt.sub := u; Djwt.iat := clock env (S (clock_reads w));
                      Djwt.exp := clock env (S (S (clock_reads w))) + 3600000 |}
                   (JWT_SECRET env);
        user := {| pu_username := u |} |}),
   {| kv := store_after env u p w; clock_reads := S (S (S (clock_reads w)));
      salts_drawn := S (salts_drawn w) |},
   [(kv w, kv w); (kv w, kv w); (kv w, kv w); (kv w, store_after env u p w);
    (store_after env u p w, store_after env u p w);
    (store_after env u p w, store_after env u p w)]).
Proof.
  intros Hu Hp Hget. rewrite register_valid by done.
  rewrite run_seq_get. simpl. rewrite Hget. simpl.
  rewrite run_seq_hash, run_seq_now, run_seq_commit. simpl.
  rewrite commit_create. simpl. rewrite Hget. simpl.
  done.
Qed.

Lemma create_nonempty env header payload key : create env header payload key ≠ "".
Proof.
  unfold create. by destruct (encode_header env header).
Qed.

(** A request that passes validation is not answered 400. *)
Lemma register_valid_not_400 env u p msg :
  u ≠ "" → (6 ≤ utf16_length p)%nat →
  ¬ may_end (register env {| req_username := Some u; req_password := Some p |})
      (Thrown 400 msg).
Proof.
  intros Hu Hp Hend. rewrite register_valid in Hend by done. simpl in Hend.
  destruct Hend as [e Hend].
  destruct (bool_decide _); simpl in Hend; [discriminate|].
  destruct Hend as (h & t & r & Hend).
  destruct (negb _); simpl in Hend; [discriminate|].
  by destruct Hend as (t1 & t2 & Hend).
Qed.

(** ** Request bodies *)

Lemma utf16_units_continuation b : utf16_units b = 0%nat ↔ continuation b = true.
Proof. destruct b as [? ? ? ? [] [] [] []]; simpl; split; (done || lia). Qed.

(** A string that is not empty has a length of at least one. *)
Lemma utf8_length_pos s : utf8 s = true → s ≠ "" → (1 ≤ utf16_length s)%nat.
Proof.
  destruct s as [|b s1]; [done|]. intros Hs _. simpl.
  destruct (utf16_units b) eqn:Hb; [|lia]. exfalso.
  apply utf16_units_continuation in Hb.
  destruct b as [b0 b1 b2 b3 b4 b5 [] []]; try discriminate.
  destruct b0, b1, b2, b3, b4, b5; vm_compute in Hs; discriminate.
Qed.

(** What passed validation. *)
Lemma validate_passed ToNumber body username password :
  validate ToNumber body = Passed username password →
  username = property "username" body ∧ password = property "password" body ∧
  ToBoolean username = true ∧ ToBoolean password = true ∧
  too_short ToNumber password = false.
Proof.
  unfold validate.
  destruct (negb (ToBoolean (property "username" body))
            || negb (ToBoolean (property "password" body))) eqn:Hf.
  { by destruct body. }
  apply orb_false_iff in Hf as [Hu Hp]. apply negb_false_iff in Hu, Hp.
  destruct (too_short ToNumber (property "password" body)) eqn:Hlen.
  { by destruct body. }
  destruct body; try discriminate; by intros [= <- <-].
Qed.

Lemma validate_short ToNumber body :
  validate ToNumber body = HttpError 400 "密码至少需要6位" ↔
  body ≠ JsUndefined ∧ body ≠ JsNull ∧
  ToBoolean (property "username" body) = true ∧
  ToBoolean (property "password" body) = true ∧
  too_short ToNumber (property "password" body) = true.
Proof.
  unfold validate.
  destruct (ToBoolean (property "username" body)) eqn:Hu;
    destruct (ToBoolean (property "password" body)) eqn:Hp;
    destruct (too_short ToNumber (property "password" body)) eqn:Hlen;
    simpl; destruct body; split; try done; intros (? & ? & ? & ? & ?); done.
Qed.

(** The three ways validation ends. *)
Lemma validate_cases ToNumber body :
  let username := property "username" body in
  let password := property "password" body in
  ((body = JsUndefined ∨ body = JsNull) ∧ validate ToNumber body = TypeError) ∨
  (body ≠ JsUndefined ∧ body ≠ JsNull ∧
   (ToBoolean username = false ∨ ToBoolean password = false ∨
    too_short ToNumber password = true) ∧
   ∃ msg, validate ToNumber body = HttpError 400 msg) ∨
  (body ≠ JsUndefined ∧ body ≠ JsNull ∧
   ToBoolean username = true ∧ ToBoolean password = true ∧
   too_short ToNumber password = false ∧
   validate ToNumber body = Passed username password).
Proof.
  simpl. unfold validate.
  destruct (ToBoolean (property "username" body)) eqn:Hu;
    destruct (ToBoolean (property "password" body)) eqn:Hp;
    destruct (too_short ToNumber (property "password" body)) eqn:Hlen;
    simpl; destruct body; eauto 10.
Qed.

(** What the handler is after validation, where it is modelled. *)
Lemma post_register_cases env ToNumber body m :
  post_register env ToNumber body = Some m →
  ((body = JsUndefined ∨ body = JsNull) ∧ m = Throw 500 "TypeError") ∨
  (body ≠ JsUndefined ∧ body ≠ JsNull ∧
   (ToBoolean (property "username" body) = false ∨
    ToBoolean (property "password" body) = false ∨
    too_short ToNumber (property "password" body) = true) ∧
   ∃ msg, validate ToNumber body = HttpError 400 msg ∧ m = Throw 400 msg) ∨
  (∃ u p,
     property "username" body = JsString u ∧ property "password" body = JsString p ∧
     u ≠ "" ∧ (6 ≤ utf16_length p)%nat ∧
     ToBoolean (property "username" body) = true ∧
     ToBoolean (property "password" body) = true ∧
     too_short ToNumber (property "password" body) = false ∧
     m = register env {| req_username := Some u; req_password := Some p |}).
Proof.
  intros Hm. unfold post_register in Hm.
  destruct (validate_cases ToNumber body)
    as [[Habs Hv]|[(Hu & Hn & Hbad & msg & Hv)|(Hu & Hn & Htu & Htp & Hlen & Hv)]];
    rewrite Hv in Hm.
  - left. by injection Hm as <-.
  - right; left. injection Hm as <-. eauto 10.
  - right; right.
    destruct (property "username" body) as [| | | |u| |] eqn:Eu; try discriminate.
    destruct (property "password" body) as [| | | |p| |] eqn:Ep; try discriminate.
    injection Hm as <-. exists u, p. split_and!; try done.
    + simpl in Htu. by apply negb_true_iff, bool_decide_eq_false in Htu.
    + simpl in Hlen. by apply Nat.ltb_ge in Hlen.
Qed.

(** On the JSON object of typed credentials the handler is [register]. *)
Lemma post_register_to_json env ToNumber body :
  post_register env ToNumber (to_json body) = Some (register env body).
Proof.
  destruct body as [[u|] [p|]]; unfold post_register, validate, register, to_json;
    simpl; try reflexivity.
  - destruct (bool_decide (u = "")) eqn:Hu; simpl; [done|].
    destruct (bool_decide (p = "")) eqn:Hp; simpl; [done|].
    destruct (utf16_length p <? 6)%nat eqn:Hlen; simpl; [done|].
    unfold register. simpl. by rewrite Hu, Hp, Hlen.
  - by destruct (bool_decide (u = "")).
Qed.

(** Validation of a request whose credentials are strings or absent:
    the handler answers 400 exactly when a credential is missing or empty
    or the password has a length below six, and in that case it is the
    bare throw: no store operation is performed, the world is unchanged
    and nothing is logged. *)
Lemma register_validation env body :
  ((∃ msg, may_end (register env body) (Thrown 400 msg)) ↔ invalid body) ∧
  (invalid body →
   ∃ msg, register env body = Throw 400 msg ∧
          ∀ others w, run env others (register env body) w = (Thrown 400 msg, w, [])).
Proof.
  assert (invalid body →
    ∃ msg, register env body = Throw 400 msg ∧
           ∀ others w, run env others (register env body) w = (Thrown 400 msg, w, []))
    as Himm.
  { intros Hinv. destruct (register_invalid env body Hinv) as [Heq|Heq];
      eexists; (split; [exact Heq|]); intros; rewrite Heq; apply run_throw. }
  split; [|exact Himm]. split.
  - intros [msg Hend].
    destruct (valid_or_invalid body) as [Hinv|(u & p & -> & Hu & Hp)]; [done|].
    exfalso. by apply (register_valid_not_400 env u p msg).
  - intros Hinv. destruct (Himm Hinv) as (msg & Heq & _).
    exists msg. by rewrite Heq.
Qed.

(** A password of five Chinese characters is fifteen bytes and five code
    units long: it is too short. *)
Example register_short_password :
  utf16_length "密码密码密" = 5%nat ∧
  String.length "密码密码密" = 15%nat ∧
  register sample_env {| req_username := Some "bob"; req_password := Some "密码密码密" |}
    = Throw 400 "密码至少需要6位" ∧
  register sample_env bob = Throw 400 "密码至少需要6位".
Proof. split_and!; reflexivity. Qed.

(** C3, at a request without a body.  [ctx.request.body().value] is then
    [undefined] (and [null] for the JSON text [null]): the destructuring
    of line 53 throws a TypeError before the guards of lines 56 to 61 are
    reached, and the request is answered 500, not 400, whatever else
    happens and without any store operation.  A body that is an object
    without members is rejected by the first guard, with 400. *)
Theorem register_without_body env ToNumber :
  validate ToNumber JsUndefined = TypeError ∧
  validate ToNumber JsNull = TypeError ∧
  post_register env ToNumber JsUndefined = Some (Throw 500 "TypeError") ∧
  post_register env ToNumber JsNull = Some (Throw 500 "TypeError") ∧
  (∀ body m others w,
     body = JsUndefined ∨ body = JsNull →
     post_register env ToNumber body = Some m →
     run env others m w = (Thrown 500 "TypeError", w, []) ∧
     ∀ msg, ¬ may_end m (Thrown 400 msg)) ∧
  post_register env ToNumber (JsObject []) = Some (Throw 400 "用户名和密码不能为空").
Proof.
  split_and!; try reflexivity.
  intros body m others w [-> | ->] [= <-]; (split; [apply run_throw|]);
    intros msg; simpl; discriminate.
Qed.

(** C10, as stated, fails for a password that is not a string: the empty
    array is not falsy, so it passes the presence check, and its length, 0,
    is below six. *)
Lemma empty_array_password_is_short :
  post_register sample_env sample_ToNumber empty_array_password
    = Some (Throw 400 "密码至少需要6位") ∧
  property "password" empty_array_password = JsArray [] ∧
  length (@nil JsValue) = 0%nat.
Proof. split_and!; reflexivity. Qed.

(** C10, amended.  Whatever the rest of the body, an empty-string password
    is rejected by the presence check, with the message of the missing
    credentials.  The message of the short password is given exactly when
    the body is there, username and password are both truthy and the
    length of the password is below six; where its continuation is
    modelled, the handler gives it in no other way.  For a password that
    is a string, that is a length of one to five code units. *)
Theorem empty_password_is_missing env ToNumber :
  (∀ body,
     body ≠ JsUndefined → body ≠ JsNull →
     property "password" body = JsString "" →
     post_register env ToNumber body = Some (Throw 400 "用户名和密码不能为空")) ∧
  (∀ body,
     validate ToNumber body = HttpError 400 "密码至少需要6位" ↔
     body ≠ JsUndefined ∧ body ≠ JsNull ∧
     ToBoolean (property "username" body) = true ∧
     ToBoolean (property "password" body) = true ∧
     too_short ToNumber (property "password" body) = true) ∧
  (∀ body m,
     post_register env ToNumber body = Some m →
     (may_end m (Thrown 400 "密码至少需要6位") ↔
      validate ToNumber body = HttpError 400 "密码至少需要6位")) ∧
  (∀ p,
     utf8 p = true →
     (ToBoolean (JsString p) = true ∧ too_short ToNumber (JsString p) = true ↔
      (1 ≤ utf16_length p ≤ 5)%nat)).
Proof.
  split_and!.
  - intros body Hu Hn Hp. unfold post_register, validate. rewrite Hp. simpl.
    rewrite orb_true_r. by destruct body.
  - apply validate_short.
  - intros body m Hm. unfold post_register in Hm.
    destruct (validate ToNumber body) as [|status message|username password] eqn:Hv.
    + injection Hm as <-. simpl. split; discriminate.
    + injection Hm as <-. simpl. split; [by intros [= -> ->]|by intros [= -> ->]].
    + destruct username as [| | | |u| |]; try discriminate.
      destruct password as [| | | |p| |]; try discriminate.
      injection Hm as <-. split; [|discriminate].
      intros Hend. exfalso.
      destruct (validate_passed _ _ _ _ Hv) as (_ & _ & Hu & Hp & Hlen).
      simpl in Hu, Hp, Hlen.
      apply negb_true_iff, bool_decide_eq_false in Hu.
      apply Nat.ltb_ge in Hlen.
      by apply (register_valid_not_400 env u p "密码至少需要6位").
  - intros p Hp. simpl. rewrite negb_true_iff, bool_decide_eq_false, Nat.ltb_lt.
    split.
    + intros [Hne Hlen]. split; [|lia]. by apply utf8_length_pos.
    + intros [Hlen1 Hlen5]. split; [|lia]. intros ->. simpl in Hlen1. lia.
Qed.

Lemma empty_password_is_missing_witness :
  post_register sample_env sample_ToNumber
    (JsObject [("password", JsString ""); ("username", JsString "bob")])
    = Some (Throw 400 "用户名和密码不能为空") ∧
  (ToBoolean (JsString "密码") = true ∧ too_short sample_ToNumber (JsString "密码") = true ↔
   (1 ≤ utf16_length "密码" ≤ 5)%nat).
Proof.
  split.
  - apply (proj1 (empty_password_is_missing sample_env sample_ToNumber));
      [discriminate|discriminate|reflexivity].
  - apply (proj2 (proj2 (proj2 (empty_password_is_missing sample_env sample_ToNumber)))).
    reflexivity.
Defined.

(** C2, as stated, fails for the empty username, which validation
    rejects on the first call, and for a username that already has a
    record, which the first call finds. *)
Lemma register_twice_first_call_rejected :
  (∃ w log,
     run sample_env []
       (register sample_env {| req_username := Some ""; req_password := Some "hunter2" |})
       initial
     = (Thrown 400 "用户名和密码不能为空", w, log)) ∧
  (∃ w log,
     run sample_env [] (register sample_env alice)
       (register_all sample_env ["alice"] initial)
     = (Thrown 409 "用户已存在", w, log)).
Proof. split; eexists _, _; vm_compute; reflexivity. Qed.

(** C2, amended. For a non-empty username that has no record yet and a
    password of at least six characters, the first of two registrations
    in sequence succeeds and leaves a record under the username's key;
    the second finds it and answers 409 without touching the world. *)
Theorem register_twice env u p w :
  u ≠ "" → (6 ≤ utf16_length p)%nat →
  Kv.data (kv w) !! ["users"; u] = None →
  let body := {| req_username := Some u; req_password := Some p |} in
  ∃ r w1 log1,
    run env [] (register env body) w = (Returned (BodyRegister r), w1, log1) ∧
    success r = true ∧
    is_Some (Kv.data (kv w1) !! ["users"; u]) ∧
    ∃ log2, run env [] (register env body) w1 = (Thrown 409 "用户已存在", w1, log2).
Proof.
  intros Hu Hp Hfresh body. subst body.
  eexists _, _, _. split; [by apply register_seq_fresh|].
  split; [done|].
  assert (Kv.data (store_after env u p w) !! ["users"; u]
          = Some (new_user env u p w, N.succ (Kv.commits (kv w)))) as Hnow.
  { unfold store_after. simpl. apply lookup_insert_eq. }
  split; [exact (mk_is_Some _ _ Hnow)|].
  eexists. eapply register_seq_taken; [done..|exact Hnow].
Qed.

Lemma register_twice_witness :
  ∃ r w1 log1,
    run sample_env [] (register sample_env alice) initial
      = (Returned (BodyRegister r), w1, log1) ∧
    success r = true ∧
    is_Some (Kv.data (kv w1) !! ["users"; "alice"]) ∧
    ∃ log2, run sample_env [] (register sample_env alice) w1
              = (Thrown 409 "用户已存在", w1, log2).
Proof.
  apply (register_twice sample_env "alice" "hunter2" initial).
  - discriminate.
  - simpl. lia.
  - reflexivity.
Defined.

(** C7. A registration that returns, under any interference, returns
    [{success: true, token, user: {username}}] with the submitted
    username and a non-empty token made by [create] for that username.
    The body is a function of the username and the clock alone: with
    another password and another hash function it is the same. *)
Theorem register_success_body env :
  (∀ others body w r w' log,
     run env others (register env body) w = (Returned r, w', log) →
     ∃ u t,
       req_username body = Some u ∧ u ≠ "" ∧
       r = BodyRegister {| success := true; token := t; user := {| pu_username := u |} |} ∧
       t ≠ "" ∧
       ∃ t1 t2,
         t = create env {| Djwt.alg := Djwt.HS256; Djwt.typ := "JWT" |}
               {| Djwt.sub := u; Djwt.iat := t1; Djwt.exp := t2 + 3600000 |}
               (JWT_SECRET env)) ∧
  (∀ h body1 body2 w1 w2 r1 r2 w1' w2' log1 log2,
     req_username body1 = req_username body2 →
     clock_reads w1 = clock_reads w2 →
     run env [] (register env body1) w1 = (Returned r1, w1', log1) →
     run (with_bcrypt h env) [] (register (with_bcrypt h env) body2) w2
       = (Returned r2, w2', log2) →
     r1 = r2).
Proof.
  split.
  - intros others body w r w' log Hrun.
    destruct (valid_or_invalid body) as [Hinv|(u & p & -> & Hu & Hp)].
    { destruct (register_invalid env body Hinv) as [Heq|Heq];
        rewrite Heq, run_throw in Hrun; discriminate. }
    destruct (register_run _ _ _ _ _ _ _ _ Hu Hp Hrun)
      as [(? & _)|[(? & _)|(n & t & n1 & n2 & s & Ho & _)]]; try discriminate.
    injection Ho as ->. eexists u, _. split_and!; [done..| |eauto].
    apply create_nonempty.
  - intros h body1 body2 w1 w2 r1 r2 w1' w2' log1 log2 Hname Hclock Hrun1 Hrun2.
    destruct (valid_or_invalid body1) as [Hinv|(u & p & -> & Hu & Hp)].
    { destruct (register_invalid env body1 Hinv) as [Heq|Heq];
        rewrite Heq, run_throw in Hrun1; discriminate. }
    destruct (valid_or_invalid body2) as [Hinv|(u2 & p2 & -> & Hu2 & Hp2)].
    { destruct (register_invalid (with_bcrypt h env) body2 Hinv) as [Heq|Heq];
        rewrite Heq, run_throw in Hrun2; discriminate. }
    simpl in Hname. injection Hname as <-.
    destruct (Kv.data (kv w1) !! ["users"; u]) as [e|] eqn:Hget1.
    { rewrite (register_seq_taken _ _ _ _ _ Hu Hp Hget1) in Hrun1. discriminate. }
    destruct (Kv.data (kv w2) !! ["users"; u]) as [e|] eqn:Hget2.
    { rewrite (register_seq_taken _ _ _ _ _ Hu Hp2 Hget2) in Hrun2. discriminate. }
    rewrite (register_seq_fresh _ _ _ _ Hu Hp Hget1) in Hrun1.
    rewrite (register_seq_fresh _ _ _ _ Hu Hp2 Hget2) in Hrun2.
    injection Hrun1 as <- _ _. injection Hrun2 as <- _ _.
    by rewrite Hclock.
Qed.

Lemma register_success_body_witness :
  ∃ u t,
    req_username alice = Some u ∧ u ≠ "" ∧
    BodyRegister {| success := true; token := "e30.alice.super_secret_key_123!";
                    user := {| pu_username := "alice" |} |}
      = BodyRegister {| success := true; token := t; user := {| pu_username := u |} |} ∧
    t ≠ "" ∧
    ∃ t1 t2,
      t = create sample_env {| Djwt.alg := Djwt.HS256; Djwt.typ := "JWT" |}
            {| Djwt.sub := u; Djwt.iat := t1; Djwt.exp := t2 + 3600000 |}
            (JWT_SECRET sample_env).
Proof.
  eapply (proj1 (register_success_body sample_env) [] alice initial).
  reflexivity.
Defined.

(** C8. Whatever happens between its steps, a registration that ends in
    an error (400, 409 or 500) has changed the store at none of its own
    steps; one that returns has changed it at exactly one step, the
    commit that put its record under a key that had none.  Run without
    interference, an error leaves the store as it was and a success leaves
    it with the new record. *)
Theorem register_atomic env others body w o w' log :
  run env others (register env body) w = (o, w', log) →
  match o with
  | Thrown status _ =>
      (status = 400 ∨ status = 409 ∨ status = 500) ∧
      writes log = [] ∧
      (others = [] → kv w' = kv w)
  | Returned _ =>
      ∃ u p s record,
        req_username body = Some u ∧ req_password body = Some p ∧
        username record = u ∧
        Kv.data s !! ["users"; u] = None ∧
        writes log =
          [(s, {| Kv.data := <[["users"; u] := (record, N.succ (Kv.commits s))]> (Kv.data s);
                  Kv.commits := N.succ (Kv.commits s) |})] ∧
        (others = [] → s = kv w ∧ kv w' = store_after env u p w)
  end.
Proof.
  intros Hrun.
  destruct (valid_or_invalid body) as [Hinv|(u & p & -> & Hu & Hp)].
  { destruct (register_invalid env body Hinv) as [Heq|Heq];
      rewrite Heq, run_throw in Hrun; simplify_eq; auto. }
  assert (others = [] →
          match Kv.data (kv w) !! ["users"; u] with
          | Some _ => kv w' = kv w ∧ ∃ status msg, o = Thrown status msg
          | None => kv w' = store_after env u p w ∧ ∃ r, o = Returned r
          end) as Hseq.
  { intros ->. destruct (Kv.data (kv w) !! ["users"; u]) as [e|] eqn:Hget.
    - rewrite (register_seq_taken _ _ _ _ _ Hu Hp Hget) in Hrun. simplify_eq. eauto.
    - rewrite (register_seq_fresh _ _ _ _ Hu Hp Hget) in Hrun. simplify_eq. eauto. }
  destruct (register_run _ _ _ _ _ _ _ _ Hu Hp Hrun)
    as [(-> & Hlog & _)|[(-> & Hlog)|(n & t & n1 & n2 & s & -> & Hnone & Hlog)]].
  - split_and!; [auto..|]. intros Hno. specialize (Hseq Hno).
    destruct (Kv.data (kv w) !! ["users"; u]); [tauto|].
    by destruct Hseq as (_ & r & ?).
  - split_and!; [auto..|]. intros Hno. specialize (Hseq Hno).
    destruct (Kv.data (kv w) !! ["users"; u]); [tauto|].
    by destruct Hseq as (_ & r & ?).
  - eexists u, p, s, _. split_and!; [done|done| |exact Hnone|exact Hlog|]; [done|].
    intros ->. specialize (Hseq eq_refl).
    destruct (Kv.data (kv w) !! ["users"; u]) as [e|] eqn:Hget.
    { by destruct Hseq as (_ & ? & ? & ?). }
    destruct Hseq as [-> _].
    rewrite (register_seq_fresh _ _ _ _ Hu Hp Hget) in Hrun.
    assert (Hlog' := f_equal snd Hrun). simpl in Hlog'. rewrite <- Hlog' in Hlog.
    unfold store_after in Hlog at 1 3.
    rewrite !writes_cons_same, writes_cons_commit, !writes_cons_same in Hlog.
    injection Hlog as <-. done.
Qed.

Lemma register_atomic_witness :
  ∃ u p s record,
    req_username alice = Some u ∧ req_password alice = Some p ∧
    username record = u ∧
    Kv.data s !! ["users"; u] = None ∧
    writes [(Kv.empty, Kv.empty); (Kv.empty, Kv.empty); (Kv.empty, Kv.empty);
            (Kv.empty, store_after sample_env "alice" "hunter2" initial);
            (store_after sample_env "alice" "hunter2" initial,
             store_after sample_env "alice" "hunter2" initial);
            (store_after sample_env "alice" "hunter2" initial,
             store_after sample_env "alice" "hunter2" initial)] =
      [(s, {| Kv.data := <[["users"; u] := (record, N.succ (Kv.commits s))]> (Kv.data s);
              Kv.commits := N.succ (Kv.commits s) |})] ∧
    ([] = @nil (World → World) →
     s = kv initial ∧
     kv {| kv := store_after sample_env "alice" "hunter2" initial;
           clock_reads := 3; salts_drawn := 1 |}
       = store_after sample_env u p initial).
Proof.
  apply (register_atomic sample_env [] alice initial
           (Returned (BodyRegister
              {| success := true; token := "e30.alice.super_secret_key_123!";
                 user := {| pu_username := "alice" |} |}))).
  reflexivity.
Defined.

(** A failed commit is reachable: a concurrent request creates the record
    between the look-up and the commit.  The answer is 500 and the
    request has written nothing. *)
Example register_commit_fails :
  let intruder (w : World) :=
    {| kv := store_after sample_env "alice" "hunter2" w;
       clock_reads := clock_reads w; salts_drawn := salts_drawn w |} in
  let '(o, _, log) :=
    run sample_env [id; intruder] (register sample_env alice) initial in
  o = Thrown 500 "用户注册失败" ∧ writes log = [].
Proof. vm_compute. done. Qed.

(** C9. The record a successful registration writes holds, as its
    password, [hashSync] of the submitted password under the salt drawn;
    with a one-way [hashSync] that is not the submitted password. *)
Theorem stored_password_is_hash env others body w r w' log :
  one_way env →
  run env others (register env body) w = (Returned r, w', log) →
  ∃ u p n t s s' v,
    req_username body = Some u ∧ req_password body = Some p ∧
    writes log = [(s, s')] ∧
    Kv.data s' !! ["users"; u]
      = Some ({| username := u; password := bcrypt env n p; createdAt := t |}, v) ∧
    bcrypt env n p ≠ p ∧
    (others = [] → s' = store_after env u p w ∧ kv w' = s').
Proof.
  intros Hone_way Hrun.
  destruct (valid_or_invalid body) as [Hinv|(u & p & -> & Hu & Hp)].
  { destruct (register_invalid env body Hinv) as [Heq|Heq];
      rewrite Heq, run_throw in Hrun; discriminate. }
  destruct (register_run _ _ _ _ _ _ _ _ Hu Hp Hrun)
    as [(? & _)|[(? & _)|(n & t & n1 & n2 & s & Ho & Hnone & Hlog)]]; try discriminate.
  eexists u, p, n, t, s, _, _. split_and!; [done|done|exact Hlog| | |].
  - simpl. apply lookup_insert_eq.
  - apply Hone_way.
  - intros ->.
    destruct (Kv.data (kv w) !! ["users"; u]) as [e|] eqn:Hget.
    { rewrite (register_seq_taken _ _ _ _ _ Hu Hp Hget) in Hrun. discriminate. }
    rewrite (register_seq_fresh _ _ _ _ Hu Hp Hget) in Hrun.
    assert (Hlog' := f_equal snd Hrun). simpl in Hlog'. rewrite <- Hlog' in Hlog.
    assert (Hw := f_equal (λ x, kv x.1.2) Hrun). simpl in Hw. rewrite <- Hw.
    unfold store_after in Hlog at 1 3.
    rewrite !writes_cons_same, writes_cons_commit, !writes_cons_same in Hlog.
    by injection Hlog as <- <-.
Qed.

Lemma sample_env_one_way : one_way sample_env.
Proof.
  intros n p Heq. apply (f_equal String.length) in Heq.
  vm_compute in Heq. fold (String.length p) in Heq. lia.
Qed.

Lemma stored_password_is_hash_witness :
  ∃ u p n t s s' v,
    req_username alice = Some u ∧ req_password alice = Some p ∧
    writes [(Kv.empty, Kv.empty); (Kv.empty, Kv.empty); (Kv.empty, Kv.empty);
            (Kv.empty, store_after sample_env "alice" "hunter2" initial);
            (store_after sample_env "alice" "hunter2" initial,
             store_after sample_env "alice" "hunter2" initial);
            (store_after sample_env "alice" "hunter2" initial,
             store_after sample_env "alice" "hunter2" initial)] = [(s, s')] ∧
    Kv.data s' !! ["users"; u]
      = Some ({| username := u; password := bcrypt sample_env n p; createdAt := t |}, v) ∧
    bcrypt sample_env n p ≠ p ∧
    ([] = @nil (World → World) →
     s' = store_after sample_env u p initial ∧
     kv {| kv := store_after sample_env "alice" "hunter2" initial;
           clock_reads := 3; salts_drawn := 1 |} = s').
Proof.
  apply (stored_password_is_hash sample_env [] alice initial
           (BodyRegister
              {| success := true; token := "e30.alice.super_secret_key_123!";
                 user := {| pu_username := "alice" |} |})).
  - exact sample_env_one_way.
  - reflexivity.
Defined.

(** ** Token issuance *)

(** C6, at a clock that advances between the two evaluations of
    [Date.now()] in the payload literal: [iat] is the first reading and
    [exp] is one hour after the second, not one hour after [iat] (the
    comment beside [exp] reads "valid for one hour"). *)
Theorem createJwt_expiry_drift :
  let header := {| Djwt.alg := Djwt.HS256; Djwt.typ := "JWT" |} in
  let payload :=
    {| Djwt.sub := "alice"; Djwt.iat := 1700000000000; Djwt.exp := 1700003600001 |} in
  (∃ w log,
     run sample_env [] (jwt_payload "alice") initial = (Returned payload, w, log)) ∧
  (∃ w log,
     run sample_env [] (createJwt sample_env "alice") initial
       = (Returned (create sample_env header payload (JWT_SECRET sample_env)), w, log)) ∧
  clock sample_env 0 = Djwt.iat payload ∧
  clock sample_env 1 + 3600000 = Djwt.exp payload ∧
  Djwt.exp payload ≠ Djwt.iat payload + 3600000.
Proof.
  split_and!.
  - eexists _, _. reflexivity.
  - eexists _, _. reflexivity.
  - reflexivity.
  - reflexivity.
  - simpl. lia.
Qed.

(** The rest of the token is as claimed: it is [create]'s serialisation
    of the header [{alg: "HS256", typ: "JWT"}] and of a payload whose
    [sub] is the username, signed with HS256 under [CONFIG.JWT_SECRET].
    The payload takes [iat] from one clock reading and [exp] from the
    next, so that [exp = iat + 3,600,000] holds exactly when the two
    readings coincide. *)
Lemma createJwt_token env u w :
  let t1 := clock env (clock_reads w) in
  let t2 := clock env (S (clock_reads w)) in
  let header := {| Djwt.alg := Djwt.HS256; Djwt.typ := "JWT" |} in
  let payload := {| Djwt.sub := u; Djwt.iat := t1; Djwt.exp := t2 + 3600000 |} in
  let signingInput := encode_header env header +:+ "." +:+ encode_payload env payload in
  (∃ w' log, run env [] (jwt_payload u) w = (Returned payload, w', log)) ∧
  (∃ w' log, run env [] (createJwt env u) w
               = (Returned (create env header payload (JWT_SECRET env)), w', log)) ∧
  create env header payload (JWT_SECRET env)
    = signingInput +:+ "." +:+ sign env Djwt.HS256 (JWT_SECRET env) signingInput ∧
  (Djwt.exp payload = Djwt.iat payload + 3600000 ↔ t2 = t1).
Proof.
  simpl. split_and!.
  - eexists _, _. reflexivity.
  - eexists _, _. reflexivity.
  - reflexivity.
  - lia.
Qed.

(** ** The listing *)

Lemma run_list_eq {A} env others prefix (cont : list Kv.KvEntry → Prog A) w :
  run env others (KvList prefix cont) w =
  let '(o, w', log) :=
    run env (tail others) (cont (Kv.list prefix (kv (interfere others w))))
      (interfere others w) in
  (o, w', (kv (interfere others w), kv (interfere others w)) :: log).
Proof. done. Qed.

Lemma run_now_eq {A} env others (cont : Z → Prog A) w :
  run env others (DateNow cont) w =
  let '(o, w', log) :=
    run env (tail others) (cont (clock env (clock_reads (interfere others w))))
      {| kv := kv (interfere others w); clock_reads := S (clock_reads (interfere others w));
         salts_drawn := salts_drawn (interfere others w) |} in
  (o, w', (kv (interfere others w), kv (interfere others w)) :: log).
Proof. done. Qed.

Lemma scan_stored_users s :
  Kv.value <$> Kv.list ["users"] s ≡ₚ stored_users s.
Proof.
  unfold Kv.list, stored_users. by rewrite stable_sort_Permutation.
Qed.

(** C4. The view handed to the template lists the stored users sorted by
    descending [createdAt] and cut to the first ten: it is sorted, its
    length is the smaller of ten and the number of stored users, no user
    left out is newer than a listed one, every user is listed when there
    are at most ten, and when the stored users are [us] in strictly
    increasing order of creation the list is the last ten of [us], newest
    first. *)
Theorem listing_top10 env others w :
  let s := kv (interfere others w) in
  let scanned := Kv.value <$> Kv.list ["users"] s in
  ∃ view w' log,
    run env others (index_view env) w = (Returned view, w', log) ∧
    run env others (get_root env) w
      = (Returned (BodyHtml (renderFile env "views/index.eta" view)), w', log) ∧
    scanned ≡ₚ stored_users s ∧
    v_users view = take 10 (sort compareFn scanned) ∧
    StronglySorted newer_first (v_users view) ∧
    length (v_users view) = (10 `min` length (stored_users s))%nat ∧
    (∃ rest, v_users view ++ rest ≡ₚ stored_users s ∧
             ∀ a b, a ∈ v_users view → b ∈ rest → createdAt b ≤ createdAt a) ∧
    ((length (stored_users s) ≤ 10)%nat → v_users view ≡ₚ stored_users s) ∧
    (∀ us, StronglySorted older_before us → us ≡ₚ stored_users s →
           v_users view = take 10 (reverse us)).
Proof.
  intros s scanned.
  pose proof (scan_stored_users s) as Hscan. fold scanned in Hscan.
  pose proof (sort_newer_first scanned) as Hsorted.
  pose proof (sort_Permutation compareFn scanned) as Hperm.
  eexists {| v_users := take 10 (sort compareFn scanned) |}, _, _.
  split_and!.
  - unfold index_view. simpl. rewrite run_list_eq, run_now_eq, run_ret.
    unfold slice. simpl. rewrite drop_0. reflexivity.
  - unfold get_root, index_view. simpl. rewrite run_list_eq, run_now_eq, run_ret.
    unfold slice. simpl. rewrite drop_0. reflexivity.
  - exact Hscan.
  - reflexivity.
  - simpl. rewrite <- (take_drop 10 (sort compareFn scanned)) in Hsorted.
    by apply StronglySorted_app_1_l in Hsorted.
  - simpl. rewrite length_take. by rewrite Hperm, Hscan.
  - exists (drop 10 (sort compareFn scanned)). simpl. split.
    + by rewrite take_drop, Hperm.
    + intros a b Ha Hb.
      rewrite <- (take_drop 10 (sort compareFn scanned)) in Hsorted.
      exact (StronglySorted_app_1_elem_of _ _ _ _ _ Hsorted Ha Hb).
  - simpl. intros Hlen. rewrite take_ge; [by rewrite Hperm|].
    by rewrite Hperm, Hscan.
  - simpl. intros us Hus Hperm_us. f_equal.
    apply (StronglySorted_unique_strong newer_first); [|done|by apply reverse_newer_first|].
    + intros x1 x2 Hx1 Hx2 H12 H21. unfold newer_first in *.
      apply (older_before_inj us); [done| | |lia].
      * by rewrite Hperm_us, <- Hscan, <- Hperm.
      * by rewrite elem_of_reverse in Hx2.
    + by rewrite Hperm, Hscan, <- Hperm_us, reverse_Permutation.
Qed.

Lemma listing_top10_witness :
  twelve_users ≡ₚ stored_users (kv twelve_world) ∧
  ∃ view w' log,
    run sample_env [] (index_view sample_env) twelve_world = (Returned view, w', log) ∧
    username <$> v_users view
      = ["max"; "amy"; "joe"; "lee"; "kim"; "sam"; "eve"; "tom"; "ann"; "zoe"].
Proof.
  assert (StronglySorted older_before twelve_users) as Hsorted.
  { unfold older_before. repeat (constructor; [repeat constructor; vm_compute; done|]).
    constructor. }
  assert (twelve_users ≡ₚ stored_users (kv twelve_world)) as Hperm.
  { rewrite <- (stable_sort_Permutation
                  (λ a b, createdAt a <=? createdAt b) (stored_users (kv twelve_world))).
    by vm_compute. }
  split; [exact Hperm|].
  destruct (listing_top10 sample_env [] twelve_world)
    as (view & w' & log & Hrun & _ & _ & _ & _ & _ & _ & _ & Hus).
  exists view, w', log. split; [exact Hrun|].
  rewrite (Hus twelve_users Hsorted Hperm). reflexivity.
Defined.

(** C5, as stated, fails: the handler passes the stored records whole, so
    two stores that differ in a password hash alone give different
    listings. *)
Lemma listing_carries_hashes :
  same_public (store_with "$2a$10$first") (store_with "$2a$10$second") ∧
  ∃ v1 v2 w1 w2 l1 l2,
    run sample_env [] (index_view sample_env) (world_with (store_with "$2a$10$first"))
      = (Returned v1, w1, l1) ∧
    run sample_env [] (index_view sample_env) (world_with (store_with "$2a$10$second"))
      = (Returned v2, w2, l2) ∧
    password <$> v_users v1 = ["$2a$10$first"] ∧
    password <$> v_users v2 = ["$2a$10$second"] ∧
    v1 ≠ v2.
Proof.
  split; [unfold same_public, store_with; simpl; by rewrite !map_fmap_singleton|].
  eexists _, _, _, _, _, _. split_and!; [vm_compute; reflexivity..|].
  vm_compute. discriminate.
Qed.

Lemma same_public_scan s1 s2 prefix :
  same_public s1 s2 →
  public <$> (Kv.value <$> Kv.list prefix s1) = public <$> (Kv.value <$> Kv.list prefix s2).
Proof.
  intros Hsame.
  set (g := λ e : Kv.KvEntry, (Kv.key e, public (Kv.value e))).
  assert (∀ s, public <$> (Kv.value <$> Kv.list prefix s) = snd <$> (g <$> Kv.list prefix s))
    as Hsnd.
  { intros s. rewrite <- !list_fmap_compose. done. }
  rewrite !Hsnd. f_equal.
  assert (∀ s, g <$> Kv.list prefix s =
    stable_sort (λ b b' : list string * (string * Z), Kv.key_leb b.1 b'.1)
      (filter (λ b : list string * (string * Z), Kv.has_prefix prefix b.1 = true)
         (map_to_list ((λ e : User * N, public e.1) <$> Kv.data s)))) as Hg.
  { intros s. unfold Kv.list.
    rewrite <- (stable_sort_fmap g (λ e e', Kv.key_leb (Kv.key e) (Kv.key e'))
                  (λ b b' : list string * (string * Z), Kv.key_leb b.1 b'.1)) by done.
    f_equal.
    rewrite (filter_fmap_commute g _
               (λ b : list string * (string * Z), Kv.has_prefix prefix b.1 = true)) by done.
    f_equal. rewrite map_to_list_fmap, <- list_fmap_compose.
    apply list_fmap_ext. by intros _ [k [u v]] _. }
  rewrite !Hg. unfold same_public in Hsame. by rewrite Hsame.
Qed.

Lemma sort_public l :
  public <$> sort compareFn l = sort (λ a b : string * Z, b.2 - a.2) (public <$> l).
Proof.
  unfold sort.
  by rewrite (stable_sort_fmap public (λ a b, compareFn a b <=? 0)
                (λ a b : string * Z, b.2 - a.2 <=? 0)).
Qed.

(** C5, amended. The view holds the stored records whole, password hash
    included; what the hashes do not influence is which users are listed
    and in which order: two stores with the same usernames and creation
    times under the same keys give listings with the same usernames and
    creation times, entry by entry.  The page rendered from them is the
    same whenever the template reads only those and the timestamp. *)
Theorem listing_public_part env w1 w2 :
  same_public (kv w1) (kv w2) →
  clock_reads w1 = clock_reads w2 →
  ∃ v1 v2 w1' w2' l1 l2,
    run env [] (index_view env) w1 = (Returned v1, w1', l1) ∧
    run env [] (index_view env) w2 = (Returned v2, w2', l2) ∧
    run env [] (get_root env) w1
      = (Returned (BodyHtml (renderFile env "views/index.eta" v1)), w1', l1) ∧
    run env [] (get_root env) w2
      = (Returned (BodyHtml (renderFile env "views/index.eta" v2)), w2', l2) ∧
    v_users v1 = slice 0 10 (sort compareFn (Kv.value <$> Kv.list ["users"] (kv w1))) ∧
    v_users v2 = slice 0 10 (sort compareFn (Kv.value <$> Kv.list ["users"] (kv w2))) ∧
    public <$> v_users v1 = public <$> v_users v2 ∧
    v_timestamp v1 = v_timestamp v2 ∧
    (template_reads_public env →
     renderFile env "views/index.eta" v1 = renderFile env "views/index.eta" v2).
Proof.
  intros Hsame Hclock.
  assert (public <$> slice 0 10 (sort compareFn (Kv.value <$> Kv.list ["users"] (kv w1)))
          = public <$> slice 0 10 (sort compareFn (Kv.value <$> Kv.list ["users"] (kv w2))))
    as Hpublic.
  { unfold slice. rewrite !fmap_take, !fmap_drop, !sort_public.
    by rewrite (same_public_scan _ _ _ Hsame). }
  eexists _, _, _, _, _, _. split_and!.
  - unfold index_view. simpl. rewrite run_list_eq, run_now_eq, run_ret. reflexivity.
  - unfold index_view. simpl. rewrite run_list_eq, run_now_eq, run_ret. reflexivity.
  - unfold get_root, index_view. simpl. rewrite run_list_eq, run_now_eq, run_ret.
    reflexivity.
  - unfold get_root, index_view. simpl. rewrite run_list_eq, run_now_eq, run_ret.
    reflexivity.
  - reflexivity.
  - reflexivity.
  - exact Hpublic.
  - simpl. by rewrite Hclock.
  - intros Htemplate. apply Htemplate; [exact Hpublic|]. simpl. by rewrite Hclock.
Qed.

Lemma sample_env_template : template_reads_public sample_env.
Proof. by intros path v v' _ _. Qed.

Lemma listing_public_part_witness :
  ∃ v1 v2 w1' w2' l1 l2,
    run sample_env [] (index_view sample_env) (world_with (store_with "$2a$10$first"))
      = (Returned v1, w1', l1) ∧
    run sample_env [] (index_view sample_env) (world_with (store_with "$2a$10$second"))
      = (Returned v2, w2', l2) ∧
    password <$> v_users v1 = ["$2a$10$first"] ∧
    password <$> v_users v2 = ["$2a$10$second"] ∧
    public <$> v_users v1 = public <$> v_users v2 ∧
    renderFile sample_env "views/index.eta" v1 = renderFile sample_env "views/index.eta" v2.
Proof.
  destruct (listing_public_part sample_env
              (world_with (store_with "$2a$10$first"))
              (world_with (store_with "$2a$10$second")))
    as (v1 & v2 & w1' & w2' & l1 & l2 & Hrun1 & Hrun2 & _ & _ & Hv1 & Hv2 & Hpub & _ & Hpage).
  - unfold same_public, store_with. simpl. rewrite !map_fmap_singleton. reflexivity.
  - reflexivity.
  - exists v1, v2, w1', w2', l1, l2.
    split_and!; [exact Hrun1|exact Hrun2| | |exact Hpub|exact (Hpage sample_env_template)].
    + rewrite Hv1. vm_compute. reflexivity.
    + rewrite Hv2. vm_compute. reflexivity.
Defined.

(** ** Concurrent requests *)

Lemma only_creates_bind {A B} (m : Prog A) (f : A → Prog B) :
  only_creates m → (∀ a, only_creates (f a)) → only_creates (bind m f).
Proof.
  intros Hm Hf. induction m as [a| | | | | |]; simpl in *; auto.
  destruct Hm as [Hop Hm]. auto.
Qed.

Lemma handler_only_creates env r : only_creates (handler env r).
Proof.
  destruct r as [|body|]; simpl.
  - done.
  - destruct (valid_or_invalid body) as [Hinv|(u & p & -> & Hu & Hp)].
    + by destruct (register_invalid env body Hinv) as [->| ->].
    + rewrite register_valid by done. simpl. intros e.
      destruct (bool_decide _); simpl; [done|].
      intros h t. split.
      * by exists {| username := u; password := h; createdAt := t |}.
      * intros r. by destruct (negb _).
  - done.
Qed.

Lemma step_inv {A} env (m : Prog A) w :
  only_creates m → keyed_by_username (kv w) →
  only_creates (step env m w).1 ∧
  keyed_by_username (kv (step env m w).2) ∧
  ∀ k e, Kv.data (kv w) !! k = Some e → Kv.data (kv (step env m w).2) !! k = Some e.
Proof.
  intros Hm Hkv. destruct m; simpl in *; auto.
  destruct Hm as [[u ->] Hm]. unfold do_commit. rewrite commit_create.
  destruct (Kv.data (kv w) !! ["users"; username u]) as [e0|] eqn:Hget; simpl; [auto|].
  split_and!; [done| |].
  - intros k e. simpl. rewrite lookup_insert. case_decide as Hk; [|by apply Hkv].
    intros [= <-]. done.
  - intros k e Hk. rewrite lookup_insert_ne; [done|]. congruence.
Qed.

Lemma serve_inv env s a :
  server_inv s →
  server_inv (serve env s a) ∧
  ∀ k e, Kv.data (kv (world s)) !! k = Some e →
         Kv.data (kv (world (serve env s a))) !! k = Some e.
Proof.
  intros [Hkv Hthreads]. destruct a as [r|i]; simpl.
  - split; [|done]. split; [done|]. simpl.
    apply Forall_app. split; [done|]. constructor; [|done]. apply handler_only_creates.
  - destruct (threads s !! i) as [[r m]|] eqn:Hi; [|done].
    pose proof (Forall_lookup_1 _ _ _ _ Hthreads Hi) as Hm. simpl in Hm.
    destruct (step_inv env m (world s) Hm Hkv) as (Hm' & Hkv' & Hkeep).
    destruct (step env m (world s)) as [m' w']. simpl in *.
    split; [|done]. split; [done|]. simpl. by apply Forall_insert.
Qed.

Lemma exec_inv env acts s : server_inv s → server_inv (exec env acts s).
Proof.
  revert s. induction acts as [|a acts IH]; intros s Hs; [done|].
  simpl. apply IH. by apply serve_inv.
Qed.

Lemma boot_inv : server_inv boot.
Proof. split; [|constructor]. intros k e. simpl. by rewrite lookup_empty. Qed.

Lemma one_record_per_key (l : list Kv.KvEntry) (Q : Kv.KvEntry → Prop)
    `{∀ e, Decision (Q e)} name :
  NoDup (Kv.key <$> l) →
  Forall (λ e, Kv.key e = ["users"; username (Kv.value e)]) l →
  (length (filter (λ u, username u = name) (Kv.value <$> filter Q l)) ≤ 1)%nat.
Proof.
  induction l as [|e l IH]; intros Hnd Hkeys; [simpl; lia|].
  rewrite fmap_cons in Hnd. apply NoDup_cons in Hnd as [Hnotin Hnd].
  apply Forall_cons in Hkeys as [Hkey Hkeys].
  rewrite filter_cons. destruct (decide (Q e)) as [HQ|HQ]; [|by apply IH].
  rewrite fmap_cons, filter_cons.
  destruct (decide (username (Kv.value e) = name)) as [Hname|Hname]; [|by apply IH].
  destruct (filter _ (Kv.value <$> filter Q l)) as [|u rest] eqn:Hrest; [simpl; lia|].
  exfalso. apply Hnotin.
  assert (u ∈ filter (λ u, username u = name) (Kv.value <$> filter Q l)) as Hu
    by (rewrite Hrest; left).
  apply list_elem_of_filter in Hu as [Hu_name Hu].
  apply list_elem_of_fmap in Hu as (e' & -> & He').
  apply list_elem_of_filter in He' as [_ He'].
  rewrite Forall_forall in Hkeys. specialize (Hkeys e' He').
  apply list_elem_of_fmap. exists e'. split; [congruence|done].
Qed.

Lemma stored_users_unique s name :
  keyed_by_username s →
  (length (filter (λ u, username u = name) (stored_users s)) ≤ 1)%nat.
Proof.
  intros Hkeys. unfold stored_users. apply one_record_per_key.
  - rewrite <- list_fmap_compose.
    replace (Kv.key ∘ Kv.to_entry) with (fst : list string * (User * N) → list string)
      by done.
    apply NoDup_fst_map_to_list.
  - apply Forall_fmap, Forall_forall. intros [k e] Hke. simpl.
    apply elem_of_map_to_list in Hke. by apply Hkeys in Hke.
Qed.

(** C1. In every state the server reaches from an empty store, whatever
    requests it accepts and however it interleaves their steps: every
    record sits under [["users", username]] of its own username, so no
    two records share a username and the scan of the store holds at most
    one user of each name; every write still pending is a conditional
    create; and no further step changes or removes a record that
    exists. *)
Theorem users_unique_reachable env acts :
  let s := exec env acts boot in
  let store := kv (world s) in
  (∀ k e, Kv.data store !! k = Some e → k = ["users"; username e.1]) ∧
  (∀ k1 k2 e1 e2,
     Kv.data store !! k1 = Some e1 → Kv.data store !! k2 = Some e2 →
     username e1.1 = username e2.1 → k1 = k2) ∧
  (∀ name, (length (filter (λ u, username u = name) (stored_users store)) ≤ 1)%nat) ∧
  Forall (λ t, only_creates t.2) (threads s) ∧
  (∀ a k e, Kv.data store !! k = Some e →
            Kv.data (kv (world (serve env s a))) !! k = Some e).
Proof.
  intros s store.
  pose proof (exec_inv env acts boot boot_inv) as Hinv. fold s in Hinv.
  destruct Hinv as [Hkeys Hthreads]. fold store in Hkeys.
  split_and!.
  - exact Hkeys.
  - intros k1 k2 e1 e2 H1 H2 Hname.
    rewrite (Hkeys _ _ H1), (Hkeys _ _ H2). by rewrite Hname.
  - intros name. by apply stored_users_unique.
  - exact Hthreads.
  - intros a. by apply serve_inv.
Qed.

Lemma users_unique_reachable_witness :
  let s := exec sample_env race boot in
  (snd <$> threads s) !! 0%nat
    = Some (Ret (BodyRegister
         {| success := true; token := "e30.alice.super_secret_key_123!";
            user := {| pu_username := "alice" |} |})) ∧
  (snd <$> threads s) !! 1%nat = Some (Throw 500 "用户注册失败") ∧
  username <$> stored_users (kv (world s)) = ["alice"] ∧
  (length (filter (λ u, username u = "alice") (stored_users (kv (world s)))) ≤ 1)%nat.
Proof.
  split_and!; [vm_compute; reflexivity..|].
  exact (proj1 (proj2 (proj2 (users_unique_reachable sample_env race))) "alice").
Defined.

(** ** One success per username *)

Lemma residual_refl {A} (m : Prog A) : residual m m.
Proof. destruct m; by left. Qed.

Lemma residual_step {A} env (m0 m : Prog A) w :
  residual m0 m → residual m0 (step env m w).1.
Proof.
  induction m0 as [a|s msg|k c IH|p c IH|op c IH|c IH|p c IH]; simpl.
  - intros [->|[]]. by left.
  - intros [->|[]]. by left.
  - intros [->|[x Hx]]; right; [|eauto]. simpl. eexists. apply residual_refl.
  - intros [->|[x Hx]]; right; [|eauto]. simpl. eexists. apply residual_refl.
  - intros [->|[x Hx]]; right; [|eauto]. simpl.
    destruct (do_commit op w). simpl. eexists. apply residual_refl.
  - intros [->|[x Hx]]; right; [|eauto]. simpl. eexists. apply residual_refl.
  - intros [->|[x Hx]]; right; [|eauto]. simpl. eexists. apply residual_refl.
Qed.

Lemma may_throw_not_will_return {A} (m : Prog A) status msg :
  may_end m (Thrown status msg) → ¬ will_return m.
Proof. intros Hend Hret. by destruct (Hret _ Hend) as [a ?]. Qed.

Lemma register_not_will_return env body : ¬ will_return (register env body).
Proof.
  destruct (valid_or_invalid body) as [Hinv|(u & p & -> & Hu & Hp)].
  - destruct (register_invalid env body Hinv) as [-> | ->];
      by eapply may_throw_not_will_return.
  - rewrite register_valid by done.
    apply (may_throw_not_will_return _ 409 "用户已存在"). simpl.
    by exists {| Kv.m_key := []; Kv.m_value := Some (mkUser "" "" 0);
                 Kv.m_versionstamp := None |}.
Qed.

(** A registration passes from "may still fail" to "will return" only by
    the step of its commit, and only when the key had no record. *)
Lemma register_commit_point env b u m w :
  req_username b = Some u →
  residual (register env b) m →
  will_return (step env m w).1 →
  will_return m ∨
  (Kv.data (kv w) !! ["users"; u] = None ∧
   is_Some (Kv.data (kv (step env m w).2) !! ["users"; u])).
Proof.
  intros Hname Hres Hret.
  destruct (valid_or_invalid b) as [Hinv|(u' & p & -> & Hu & Hp)].
  { destruct (register_invalid env b Hinv) as [Heq|Heq]; rewrite Heq in Hres;
      destruct Hres as [->|[]]; by left. }
  simpl in Hname. injection Hname as ->.
  rewrite register_valid in Hres by done.
  assert (∀ h t, ¬ will_return (KvCommit
            (Kv.set ["users"; u] {| username := u; password := h; createdAt := t |}
               (Kv.check {| Kv.c_key := ["users"; u]; Kv.c_versionstamp := None |} Kv.atomic))
            (λ commitResult : Kv.KvCommitResult,
               if negb (Kv.ok commitResult) then Throw 500 "用户注册失败"
               else DateNow (λ iat, DateNow (λ now',
                 Ret (BodyRegister
                   {| success := true;
                      token := create env {| Djwt.alg := Djwt.HS256; Djwt.typ := "JWT" |}
                                 {| Djwt.sub := u; Djwt.iat := iat; Djwt.exp := now' + 3600000 |}
                                 (JWT_SECRET env);
                      user := {| pu_username := u |} |})))))) as Hcommit.
  { intros h t. apply (may_throw_not_will_return _ 500 "用户注册失败"). simpl.
    by exists {| Kv.ok := false; Kv.r_versionstamp := None |}. }
  assert (∀ h, ¬ will_return (DateNow (λ now : Z, KvCommit
            (Kv.set ["users"; u] {| username := u; password := h; createdAt := now |}
               (Kv.check {| Kv.c_key := ["users"; u]; Kv.c_versionstamp := None |} Kv.atomic))
            (λ commitResult : Kv.KvCommitResult,
               if negb (Kv.ok commitResult) then Throw 500 "用户注册失败"
               else DateNow (λ iat, DateNow (λ now',
                 Ret (BodyRegister
                   {| success := true;
                      token := create env {| Djwt.alg := Djwt.HS256; Djwt.typ := "JWT" |}
                                 {| Djwt.sub := u; Djwt.iat := iat; Djwt.exp := now' + 3600000 |}
                                 (JWT_SECRET env);
                      user := {| pu_username := u |} |}))))))) as Hnow.
  { intros h. apply (may_throw_not_will_return _ 500 "用户注册失败"). simpl.
    by exists 0, {| Kv.ok := false; Kv.r_versionstamp := None |}. }
  simpl in Hres.
  destruct Hres as [->|[e Hres]].
  { exfalso. simpl in Hret. revert Hret.
    destruct (bool_decide _); [by eapply may_throw_not_will_return|].
    apply (may_throw_not_will_return _ 500 "用户注册失败"). simpl.
    by exists "", 0, {| Kv.ok := false; Kv.r_versionstamp := None |}. }
  destruct (bool_decide (is_Some (Kv.m_value e))); simpl in Hres.
  { destruct Hres as [->|[]]. by left. }
  destruct Hres as [->|[h Hres]].
  { exfalso. simpl in Hret. by apply Hnow in Hret. }
  destruct Hres as [->|[t Hres]].
  { exfalso. simpl in Hret. by apply Hcommit in Hret. }
  destruct Hres as [->|[r Hres]].
  { right. simpl in Hret |- *. unfold do_commit in *.
    rewrite commit_create in Hret |- *.
    destruct (Kv.data (kv w) !! ["users"; u]) as [e0|] eqn:Hget; simpl in Hret |- *.
    - exfalso. revert Hret. by eapply may_throw_not_will_return.
    - split; [done|]. rewrite lookup_insert_eq. eauto. }
  left. destruct (negb (Kv.ok r)); simpl in Hres.
  { destruct Hres as [->|[]]. simpl in Hret. exfalso. revert Hret.
    by eapply may_throw_not_will_return. }
  destruct Hres as [->|[iat [->|[now' [->|[]]]]]]; intros o Ho; simpl in Ho.
  - destruct Ho as (? & ? & ->). eauto.
  - destruct Ho as (? & ->). eauto.
  - subst o. eauto.
Qed.

Lemma boot_exclusive env : exclusive env boot.
Proof.
  split_and!; [constructor| |]; simpl.
  - intros i t u Hi. by rewrite lookup_nil in Hi.
  - intros i j ti tj u Hi. by rewrite lookup_nil in Hi.
Qed.

Lemma accepted_not_will_return env r u :
  registering u (r, handler env r) → ¬ will_return (handler env r).
Proof. intros (b & Hr & _). simpl in Hr. subst r. apply register_not_will_return. Qed.

Lemma serve_exclusive env s a :
  server_inv s → exclusive env s → exclusive env (serve env s a).
Proof.
  intros Hinv (Hres & Hstored & Hone).
  destruct a as [r|i0].
  - (* a new request *)
    assert (∀ i (t : Request * Prog Body),
              (threads s ++ [(r, handler env r)])%list !! i = Some t →
                   threads s !! i = Some t ∨ t = (r, handler env r)) as Hlookup.
    { intros i t Hi. apply lookup_app_Some in Hi as [Hi|[_ Hi]]; [by left|].
      right. destruct (i - length (threads s))%nat; simpl in Hi; [congruence|].
      by rewrite lookup_nil in Hi. }
    split_and!; simpl.
    + apply Forall_app. split; [done|]. constructor; [|done]. apply residual_refl.
    + intros i t u Hi Hreg Hret. apply Hlookup in Hi as [Hi| ->]; [eauto|].
      by apply accepted_not_will_return in Hreg.
    + intros i j ti tj u Hi Hj Hregi Hregj Hreti Hretj.
      apply Hlookup in Hi as [Hi| ->]; [|by apply accepted_not_will_return in Hregi].
      apply Hlookup in Hj as [Hj| ->]; [|by apply accepted_not_will_return in Hregj].
      eauto.
  - (* a step of thread [i0] *)
    pose proof (serve_inv env s (Advance i0) Hinv) as [_ Hkeep].
    assert (∀ u, is_Some (Kv.data (kv (world s)) !! ["users"; u]) →
                 is_Some (Kv.data (kv (world (serve env s (Advance i0)))) !! ["users"; u]))
      as Hmono.
    { intros u [e He]. exists e. by apply Hkeep. }
    simpl in *. destruct (threads s !! i0) as [[r m]|] eqn:Hi0; [|done].
    pose proof (Forall_lookup_1 _ _ _ _ Hres Hi0) as Hm. simpl in Hm.
    assert (∀ u, registering u (r, m) → will_return (step env m (world s)).1 →
                 will_return m ∨
                 (Kv.data (kv (world s)) !! ["users"; u] = None ∧
                  is_Some (Kv.data (kv (step env m (world s)).2) !! ["users"; u])))
      as Hpoint.
    { intros u (b & Hr & Hname) Hret. simpl in Hr. subst r.
      by eapply register_commit_point. }
    destruct (step env m (world s)) as [m' w'] eqn:Hstep. simpl in *.
    split_and!; simpl.
    + apply Forall_insert; [done|]. simpl.
      pose proof (residual_step env _ _ (world s) Hm) as Hm'. by rewrite Hstep in Hm'.
    + intros i t u Hi Hreg Hret.
      apply list_lookup_insert_Some in Hi as [(<- & <- & _)|[Hne Hi]].
      * destruct (Hpoint u Hreg Hret) as [Hold|[_ Hnew]]; [|done].
        apply Hmono. by apply (Hstored i0 (r, m) u).
      * apply Hmono. eauto.
    + intros i j ti tj u Hi Hj Hregi Hregj Hreti Hretj.
      apply list_lookup_insert_Some in Hi as [(<- & <- & _)|[Hnei Hi]];
        apply list_lookup_insert_Some in Hj as [(<- & <- & _)|[Hnej Hj]]; [done| | |eauto].
      * destruct (Hpoint u Hregi Hreti) as [Hold|[Hnone _]].
        -- by apply (Hone i0 j (r, m) tj u).
        -- destruct (Hstored j tj u Hj Hregj Hretj) as [e He]. congruence.
      * destruct (Hpoint u Hregj Hretj) as [Hold|[Hnone _]].
        -- by apply (Hone i i0 ti (r, m) u).
        -- destruct (Hstored i ti u Hi Hregi Hreti) as [e He]. congruence.
Qed.

Lemma exec_exclusive env acts s :
  server_inv s → exclusive env s → exclusive env (exec env acts s).
Proof.
  revert s. induction acts as [|a acts IH]; intros s Hinv Hex; [done|].
  simpl. apply IH; [by apply serve_inv|by apply serve_exclusive].
Qed.

Lemma ret_will_return {A} (a : A) : will_return (Ret a).
Proof. intros o Ho. simpl in Ho. eauto. Qed.

(** X1. In no state the server reaches from an empty store have two
    requests for one username both returned a response: beside a
    registration that has returned, every other registration of the same
    username has not returned and can still fail, and the username's
    record is in the store. *)
Theorem one_success_per_username env acts i j bi bj u ri mj :
  let s := exec env acts boot in
  threads s !! i = Some (PostRegister bi, Ret ri) →
  threads s !! j = Some (PostRegister bj, mj) →
  req_username bi = Some u →
  req_username bj = Some u →
  i ≠ j →
  (∀ rj, mj ≠ Ret rj) ∧ ¬ will_return mj ∧
  is_Some (Kv.data (kv (world s)) !! ["users"; u]).
Proof.
  intros s Hi Hj Hui Huj Hne.
  destruct (exec_exclusive env acts boot boot_inv (boot_exclusive env))
    as (_ & Hstored & Hone). fold s in Hstored, Hone.
  assert (registering u (PostRegister bi, Ret ri)) as Hregi by (by exists bi).
  assert (registering u (PostRegister bj, mj)) as Hregj by (by exists bj).
  assert (¬ will_return mj) as Hnot.
  { intros Hret. apply Hne.
    apply (Hone i j _ _ u Hi Hj Hregi Hregj); [apply ret_will_return|done]. }
  split_and!; [|done|].
  - intros rj ->. apply Hnot, ret_will_return.
  - apply (Hstored i _ u Hi Hregi). apply ret_will_return.
Qed.

Lemma one_success_per_username_witness :
  (∀ rj : Body, Throw 500 "用户注册失败" ≠ Ret rj) ∧
  ¬ will_return (Throw (A := Body) 500 "用户注册失败") ∧
  is_Some (Kv.data (kv (world (exec sample_env race boot))) !! ["users"; "alice"]).
Proof.
  apply (one_success_per_username sample_env race 0 1 alice alice "alice"
           (BodyRegister
              {| success := true; token := "e30.alice.super_secret_key_123!";
                 user := {| pu_username := "alice" |} |})).
  - vm_compute; reflexivity.
  - vm_compute; reflexivity.
  - reflexivity.
  - reflexivity.
  - lia.
Defined.

(** ** What a registration adds *)

Lemma stored_users_insert s name record v c :
  Kv.data s !! ["users"; name] = None →
  stored_users {| Kv.data := <[["users"; name] := (record, v)]> (Kv.data s);
                  Kv.commits := c |}
    ≡ₚ record :: stored_users s.
Proof.
  intros Hnone. unfold stored_users. simpl.
  rewrite (map_to_list_insert _ _ _ Hnone), fmap_cons.
  rewrite filter_cons_True by reflexivity. by rewrite fmap_cons.
Qed.

(** X2. The one write of a registration that returns, whatever happens
    between its steps, adds the record of the submitted username and
    nothing else: the users in the store are the users before and the new
    record, every other key keeps its entry, and a [get] of the new key
    gives the record back with the versionstamp of the commit. *)
Theorem register_adds_one_record env others b w r w' log :
  run env others (register env b) w = (Returned r, w', log) →
  ∃ s s' record,
    writes log = [(s, s')] ∧
    req_username b = Some (username record) ∧
    stored_users s' ≡ₚ record :: stored_users s ∧
    length (stored_users s') = S (length (stored_users s)) ∧
    (∀ k, k ≠ ["users"; username record] → Kv.data s' !! k = Kv.data s !! k) ∧
    Kv.get ["users"; username record] s' =
      {| Kv.m_key := ["users"; username record]; Kv.m_value := Some record;
         Kv.m_versionstamp := Some (Kv.commits s') |}.
Proof.
  intros Hrun.
  destruct (valid_or_invalid b) as [Hinv|(u & p & -> & Hu & Hp)].
  { destruct (register_invalid env b Hinv) as [Heq|Heq];
      rewrite Heq, run_throw in Hrun; discriminate. }
  destruct (register_run _ _ _ _ _ _ _ _ Hu Hp Hrun)
    as [(? & _)|[(? & _)|(n & t & n1 & n2 & s & _ & Hnone & Hlog)]]; try discriminate.
  eexists s, _, {| username := u; password := bcrypt env n p; createdAt := t |}.
  split; [exact Hlog|]. simpl.
  pose proof (stored_users_insert s u
                {| username := u; password := bcrypt env n p; createdAt := t |}
                (N.succ (Kv.commits s)) (N.succ (Kv.commits s)) Hnone) as Hperm.
  split_and!.
  - done.
  - exact Hperm.
  - by rewrite Hperm.
  - intros k Hk. by rewrite lookup_insert_ne.
  - unfold Kv.get. simpl. by rewrite lookup_insert_eq.
Qed.

Lemma register_adds_one_record_witness :
  ∃ s s' record,
    writes [(Kv.empty, Kv.empty); (Kv.empty, Kv.empty); (Kv.empty, Kv.empty);
            (Kv.empty, store_after sample_env "alice" "hunter2" initial);
            (store_after sample_env "alice" "hunter2" initial,
             store_after sample_env "alice" "hunter2" initial);
            (store_after sample_env "alice" "hunter2" initial,
             store_after sample_env "alice" "hunter2" initial)] = [(s, s')] ∧
    req_username alice = Some (username record) ∧
    stored_users s' ≡ₚ record :: stored_users s ∧
    length (stored_users s') = S (length (stored_users s)) ∧
    (∀ k, k ≠ ["users"; username record] → Kv.data s' !! k = Kv.data s !! k) ∧
    Kv.get ["users"; username record] s' =
      {| Kv.m_key := ["users"; username record]; Kv.m_value := Some record;
         Kv.m_versionstamp := Some (Kv.commits s') |}.
Proof.
  eapply (register_adds_one_record sample_env [] alice initial
           (BodyRegister
              {| success := true; token := "e30.alice.super_secret_key_123!";
                 user := {| pu_username := "alice" |} |})).
  reflexivity.
Defined.

(** ** Registration, then listing *)

Lemma sorted_head_newest (l old : list User) x :
  StronglySorted newer_first l →
  l ≡ₚ x :: old →
  (∀ y, y ∈ old → createdAt y < createdAt x) →
  ∃ l', l = x :: l' ∧ l' ≡ₚ old.
Proof.
  intros Hsorted Hperm Hnewest.
  destruct l as [|h l']; [by apply Permutation_nil_cons in Hperm|].
  destruct (decide (h = x)) as [->|Hne].
  { exists l'. split; [done|]. by apply Permutation_cons_inv in Hperm. }
  exfalso.
  assert (h ∈ old) as Hh.
  { assert (h ∈ x :: old) as Hin by (rewrite <- Hperm; left).
    by apply elem_of_cons in Hin as [?|?]. }
  assert (x ∈ l') as Hx.
  { assert (x ∈ h :: l') as Hin by (rewrite Hperm; left).
    apply elem_of_cons in Hin as [?|?]; [congruence|done]. }
  apply StronglySorted_cons in Hsorted as [Hall _].
  rewrite Forall_forall in Hall. specialize (Hall x Hx). specialize (Hnewest h Hh).
  unfold newer_first in Hall. lia.
Qed.

(** X3. A registration whose clock reading is later than the creation
    time of every stored user puts its record at the head of the next
    listing; the users listed after it are stored users from before. *)
Theorem newest_user_heads_listing env u p w :
  u ≠ "" → (6 ≤ utf16_length p)%nat →
  Kv.data (kv w) !! ["users"; u] = None →
  (∀ x, x ∈ stored_users (kv w) → createdAt x < clock env (clock_reads w)) →
  ∃ r w1 log1 view w2 log2 rest,
    run env [] (register env {| req_username := Some u; req_password := Some p |}) w
      = (Returned r, w1, log1) ∧
    run env [] (index_view env) w1 = (Returned view, w2, log2) ∧
    v_users view = new_user env u p w :: rest ∧
    (length rest = 9 `min` length (stored_users (kv w)))%nat ∧
    (∀ x, x ∈ rest → x ∈ stored_users (kv w)).
Proof.
  intros Hu Hp Hfresh Hnewest.
  set (scan := Kv.value <$> Kv.list ["users"] (store_after env u p w)).
  assert (sort compareFn scan ≡ₚ new_user env u p w :: stored_users (kv w)) as Hperm.
  { rewrite sort_Permutation. unfold scan. rewrite scan_stored_users.
    by apply stored_users_insert. }
  destruct (sorted_head_newest _ _ _ (sort_newer_first scan) Hperm Hnewest)
    as (l' & Hl & Hl').
  eexists _, _, _, {| v_users := new_user env u p w :: take 9 l' |}, _, _, (take 9 l').
  split_and!.
  - by apply register_seq_fresh.
  - unfold index_view. simpl. rewrite run_list_eq, run_now_eq, run_ret. simpl.
    fold scan. rewrite Hl. reflexivity.
  - done.
  - by rewrite length_take, Hl'.
  - intros x Hx. rewrite <- Hl'. apply elem_of_take in Hx as (i & Hi & _).
    by eapply list_elem_of_lookup_2.
Qed.

Lemma newest_user_heads_listing_witness :
  ∃ r w1 log1 view w2 log2 rest,
    run sample_env [] (register sample_env alice) twelve_world = (Returned r, w1, log1) ∧
    run sample_env [] (index_view sample_env) w1 = (Returned view, w2, log2) ∧
    v_users view = new_user sample_env "alice" "hunter2" twelve_world :: rest ∧
    (length rest = 9 `min` length (stored_users (kv twelve_world)))%nat ∧
    (∀ x, x ∈ rest → x ∈ stored_users (kv twelve_world)).
Proof.
  apply (newest_user_heads_listing sample_env "alice" "hunter2" twelve_world).
  - discriminate.
  - simpl. lia.
  - vm_compute; reflexivity.
  - intros x Hx.
    assert (Forall (λ x, createdAt x < clock sample_env (clock_reads twelve_world))
              (stored_users (kv twelve_world))) as Hall.
    { set (l := stored_users (kv twelve_world)). vm_compute in l. subst l.
      repeat (constructor; [vm_compute; reflexivity|]). constructor. }
    rewrite Forall_forall in Hall. by apply Hall.
Defined.

(** ** Many registrations, then listing *)

Lemma register_each_cons env c credentials w :
  c.1 ≠ "" → (6 ≤ utf16_length c.2)%nat →
  Kv.data (kv w) !! ["users"; c.1] = None →
  register_each env (c :: credentials) w
    = register_each env credentials (world_after env c.1 c.2 w).
Proof.
  intros Hname Hpass Hfresh. unfold register_each. simpl.
  by rewrite register_seq_fresh.
Qed.

Lemma register_each_stored env credentials w :
  NoDup credentials.*1 →
  Forall (λ c, c.1 ≠ "" ∧ (6 ≤ utf16_length c.2)%nat) credentials →
  (∀ name, name ∈ credentials.*1 → Kv.data (kv w) !! ["users"; name] = None) →
  stored_users (kv (register_each env credentials w))
    ≡ₚ (created env credentials w ++ stored_users (kv w))%list.
Proof.
  revert w. induction credentials as [|c credentials IH]; intros w Hnd Hok Hfresh; [done|].
  rewrite fmap_cons in Hnd, Hfresh.
  apply NoDup_cons in Hnd as [Hnotin Hnd].
  apply Forall_cons in Hok as [[Hname Hpass] Hok].
  rewrite register_each_cons; [|done|done|apply Hfresh; left].
  rewrite IH; [|done..|].
  - simpl. unfold store_after.
    rewrite stored_users_insert by (apply Hfresh; left).
    by rewrite <- Permutation_middle.
  - intros name' Hin. simpl. rewrite lookup_insert_ne.
    + apply Hfresh. by right.
    + intros [= Heq]. apply Hnotin. by rewrite Heq.
Qed.

Lemma register_all_each env names w :
  register_all env names w = register_each env ((λ name, (name, "hunter2")) <$> names) w.
Proof.
  unfold register_all, register_each. revert w.
  induction names as [|name names IH]; intros w; [done|]. simpl. apply IH.
Qed.

Lemma created_clock env credentials w x :
  x ∈ created env credentials w →
  ∃ k, (clock_reads w ≤ k)%nat ∧ createdAt x = clock env k.
Proof.
  revert w. induction credentials as [|c credentials IH]; intros w Hx; simpl in Hx.
  { by apply elem_of_nil in Hx. }
  apply elem_of_cons in Hx as [->|Hx].
  - exists (clock_reads w). split; [lia|done].
  - destruct (IH _ Hx) as (k & Hk & Heq). simpl in Hk. exists k. split; [lia|done].
Qed.

Lemma created_sorted env credentials w :
  ticking env → StronglySorted older_before (created env credentials w).
Proof.
  intros Htick. revert w. induction credentials as [|c credentials IH]; intros w; simpl.
  { constructor. }
  constructor; [apply IH|]. apply Forall_forall. intros x Hx.
  destruct (created_clock _ _ _ _ Hx) as (k & Hk & Heq). simpl in Hk.
  unfold older_before. rewrite Heq. simpl. apply Htick. lia.
Qed.

Lemma created_usernames env credentials w :
  username <$> created env credentials w = credentials.*1.
Proof.
  revert w. induction credentials as [|c credentials IH]; intros w; [done|].
  simpl. by rewrite IH.
Qed.

Lemma sort_strictly_ordered us l :
  StronglySorted older_before us → us ≡ₚ l → sort compareFn l = reverse us.
Proof.
  intros Hus Hperm.
  apply (StronglySorted_unique_strong newer_first);
    [|apply sort_newer_first|by apply reverse_newer_first|].
  - intros x1 x2 Hx1 Hx2 H12 H21. unfold newer_first in *.
    apply (older_before_inj us); [done| | |lia].
    + by rewrite Hperm, <- (sort_Permutation compareFn).
    + by rewrite elem_of_reverse in Hx2.
  - by rewrite sort_Permutation, <- Hperm, reverse_Permutation.
Qed.

Lemma stored_users_empty s : Kv.data s = ∅ → stored_users s = [].
Proof. intros Hempty. unfold stored_users. by rewrite Hempty, map_to_list_empty. Qed.

(** X4. With a clock whose readings strictly increase, registering
    distinct non-empty usernames one after the other in an empty store,
    each with a password of its own whose length is at least six, and
    then listing gives the last ten of them, latest registration first. *)
Theorem listing_after_registrations env credentials w :
  ticking env →
  NoDup credentials.*1 →
  Forall (λ c, c.1 ≠ "" ∧ (6 ≤ utf16_length c.2)%nat) credentials →
  Kv.data (kv w) = ∅ →
  ∃ view w' log,
    run env [] (index_view env) (register_each env credentials w)
      = (Returned view, w', log) ∧
    v_users view = take 10 (reverse (created env credentials w)) ∧
    username <$> v_users view = take 10 (reverse credentials.*1).
Proof.
  intros Htick Hnd Hok Hempty.
  set (w1 := register_each env credentials w).
  assert (sort compareFn (Kv.value <$> Kv.list ["users"] (kv w1))
          = reverse (created env credentials w)) as Hsort.
  { apply sort_strictly_ordered; [by apply created_sorted|].
    rewrite scan_stored_users. unfold w1. rewrite register_each_stored; [|done..|].
    - by rewrite (stored_users_empty _ Hempty), app_nil_r.
    - intros name _. by rewrite Hempty, lookup_empty. }
  eexists {| v_users := take 10 (reverse (created env credentials w)) |}, _, _.
  split_and!.
  - unfold index_view. simpl. rewrite run_list_eq, run_now_eq, run_ret. simpl.
    rewrite Hsort. unfold slice. simpl. rewrite drop_0. reflexivity.
  - done.
  - simpl. by rewrite fmap_take, fmap_reverse, created_usernames.
Qed.

Lemma sample_env_ticking : ticking sample_env.
Proof. intros n m Hnm. simpl. lia. Qed.

Lemma listing_after_registrations_witness :
  ∃ view w' log,
    run sample_env [] (index_view sample_env)
      (register_each sample_env three_credentials initial)
      = (Returned view, w', log) ∧
    v_users view = take 10 (reverse (created sample_env three_credentials initial)) ∧
    username <$> v_users view = take 10 (reverse three_credentials.*1).
Proof.
  apply (listing_after_registrations sample_env three_credentials initial).
  - exact sample_env_ticking.
  - compute_done.
  - repeat constructor; (discriminate || (vm_compute; lia)).
  - reflexivity.
Defined.

(** ** A failed commit *)

Lemma run_get_eq {A} env others k (cont : Kv.KvEntryMaybe → Prog A) w :
  run env others (KvGet k cont) w =
  let '(o, w', log) :=
    run env (tail others) (cont (Kv.get k (kv (interfere others w))))
      (interfere others w) in
  (o, w', (kv (interfere others w), kv (interfere others w)) :: log).
Proof. done. Qed.

Lemma run_hash_eq {A} env others plaintext (cont : string → Prog A) w :
  run env others (HashSync plaintext cont) w =
  let '(o, w', log) :=
    run env (tail others)
      (cont (bcrypt env (salts_drawn (interfere others w)) plaintext))
      {| kv := kv (interfere others w); clock_reads := clock_reads (interfere others w);
         salts_drawn := S (salts_drawn (interfere others w)) |} in
  (o, w', (kv (interfere others w), kv (interfere others w)) :: log).
Proof. done. Qed.

Lemma run_commit_eq {A} env others op (cont : Kv.KvCommitResult → Prog A) w :
  run env others (KvCommit op cont) w =
  let '(o, w', log) :=
    run env (tail others) (cont (Kv.commit op (kv (interfere others w))).1)
      {| kv := (Kv.commit op (kv (interfere others w))).2;
         clock_reads := clock_reads (interfere others w);
         salts_drawn := salts_drawn (interfere others w) |} in
  (o, w', (kv (interfere others w), (Kv.commit op (kv (interfere others w))).2) :: log).
Proof.
  unfold run at 1. simpl. unfold do_commit.
  by destruct (Kv.commit op (kv (interfere others w))).
Qed.

(** X5. The error of the failed commit, [ctx.throw(500, "用户注册失败")]
    of line 84, needs a race.  A registration that runs alone never
    throws it; one that throws it found no record of the username at its
    look-up and found one at its commit: the record was created by
    someone else in between. *)
Theorem commit_failure_needs_race env b :
  (∀ w o w' log,
     run env [] (register env b) w = (o, w', log) → o ≠ Thrown 500 "用户注册失败") ∧
  (∀ others w w' log,
     run env others (register env b) w = (Thrown 500 "用户注册失败", w', log) →
     ∃ u s1 s2,
       req_username b = Some u ∧
       s1 = kv (interfere others w) ∧
       log !! 0%nat = Some (s1, s1) ∧
       log !! 3%nat = Some (s2, s2) ∧
       Kv.data s1 !! ["users"; u] = None ∧
       is_Some (Kv.data s2 !! ["users"; u])).
Proof.
  split.
  - intros w o w' log Hrun ->.
    destruct (valid_or_invalid b) as [Hinv|(u & p & -> & Hu & Hp)].
    { destruct (register_invalid env b Hinv) as [Heq|Heq];
        rewrite Heq, run_throw in Hrun; discriminate. }
    destruct (Kv.data (kv w) !! ["users"; u]) as [e|] eqn:Hget.
    + rewrite (register_seq_taken _ _ _ _ _ Hu Hp Hget) in Hrun. discriminate.
    + rewrite (register_seq_fresh _ _ _ _ Hu Hp Hget) in Hrun. discriminate.
  - intros others w w' log Hrun.
    destruct (valid_or_invalid b) as [Hinv|(u & p & -> & Hu & Hp)].
    { destruct (register_invalid env b Hinv) as [Heq|Heq];
        rewrite Heq, run_throw in Hrun; discriminate. }
    exists u. rewrite register_valid in Hrun by done.
    rewrite run_get_eq in Hrun.
    destruct (run env (tail others) _ (interfere others w)) as [[o1 w1] l1] eqn:E1.
    injection Hrun as -> -> <-. simpl in E1.
    destruct (Kv.data (kv (interfere others w)) !! ["users"; u]) as [e|] eqn:Hget;
      simpl in E1.
    { rewrite run_throw in E1. discriminate. }
    rewrite run_hash_eq in E1.
    destruct (run env (tail (tail others)) _ _) as [[o2 w2] l2] eqn:E2.
    injection E1 as -> -> <-.
    rewrite run_now_eq in E2.
    destruct (run env (tail (tail (tail others))) _ _) as [[o3 w3] l3] eqn:E3.
    injection E2 as -> -> <-.
    rewrite run_commit_eq, commit_create in E3.
    match type of E3 with context [Kv.data ?s !! _] =>
      destruct (Kv.data s !! ["users"; u]) as [e|] eqn:Hchk end; simpl in E3.
    + rewrite ?run_throw in E3. injection E3 as _ <-.
      eexists _, _. split_and!; [done..|]. by rewrite Hchk.
    + rewrite ?run_now_eq, ?run_ret in E3. discriminate.
Qed.

Lemma commit_failure_needs_race_witness :
  ∃ u s1 s2,
    req_username alice = Some u ∧
    s1 = kv (interfere [id; world_after sample_env "alice" "hunter2"] initial) ∧
    [(Kv.empty, Kv.empty);
     (store_after sample_env "alice" "hunter2" initial,
      store_after sample_env "alice" "hunter2" initial);
     (store_after sample_env "alice" "hunter2" initial,
      store_after sample_env "alice" "hunter2" initial);
     (store_after sample_env "alice" "hunter2" initial,
      store_after sample_env "alice" "hunter2" initial)] !! 0%nat = Some (s1, s1) ∧
    [(Kv.empty, Kv.empty);
     (store_after sample_env "alice" "hunter2" initial,
      store_after sample_env "alice" "hunter2" initial);
     (store_after sample_env "alice" "hunter2" initial,
      store_after sample_env "alice" "hunter2" initial);
     (store_after sample_env "alice" "hunter2" initial,
      store_after sample_env "alice" "hunter2" initial)] !! 3%nat = Some (s2, s2) ∧
    Kv.data s1 !! ["users"; u] = None ∧
    is_Some (Kv.data s2 !! ["users"; u]).
Proof.
  eapply (proj2 (commit_failure_needs_race sample_env alice)
            [id; world_after sample_env "alice" "hunter2"] initial).
  reflexivity.
Defined.

(** ** The routes that only read *)

(** X6. [GET /] never writes: whatever other requests do between its
    steps, none of its own steps changes the store; run alone it leaves
    the store and the count of salts as it found them and takes one
    reading of the clock. *)
Theorem get_root_reads_only env others w o w' log :
  run env others (get_root env) w = (o, w', log) →
  writes log = [] ∧
  Forall (λ ba, ba.1 = ba.2) log ∧
  (others = [] →
   w' = {| kv := kv w; clock_reads := S (clock_reads w); salts_drawn := salts_drawn w |}).
Proof.
  unfold get_root, index_view. simpl.
  rewrite run_list_eq, run_now_eq, run_ret. intros [= <- <- <-].
  split_and!; [by rewrite !writes_cons_same|by repeat constructor|].
  by intros ->.
Qed.

Lemma get_root_reads_only_witness :
  writes [(store_with "$2a$10$first", store_with "$2a$10$first");
          (store_with "$2a$10$first", store_with "$2a$10$first")] = [] ∧
  Forall (λ ba : Kv.Store * Kv.Store, ba.1 = ba.2)
    [(store_with "$2a$10$first", store_with "$2a$10$first");
     (store_with "$2a$10$first", store_with "$2a$10$first")] ∧
  ([] = @nil (World → World) →
   {| kv := store_with "$2a$10$first"; clock_reads := 1; salts_drawn := 0 |}
     = {| kv := kv (world_with (store_with "$2a$10$first"));
          clock_reads := S (clock_reads (world_with (store_with "$2a$10$first")));
          salts_drawn := salts_drawn (world_with (store_with "$2a$10$first")) |}).
Proof.
  apply (get_root_reads_only sample_env [] (world_with (store_with "$2a$10$first"))
           (Returned (BodyHtml "views/index.eta"))).
  reflexivity.
Defined.

(** X7. [GET /health] never throws and never touches the store; its
    body is the status [healthy] with the reading of the clock at that
    moment, so it is the same in any two worlds whose clocks agree,
    whatever their stores hold. *)
Theorem health_ignores_store env :
  (∀ others w o w' log,
     run env others health w = (o, w', log) →
     o = Returned (BodyHealth
           {| status := "healthy";
              timestamp := clock env (clock_reads (interfere others w)) |}) ∧
     writes log = [] ∧
     kv w' = kv (interfere others w)) ∧
  (∀ w1 w2 o1 o2 w1' w2' log1 log2,
     clock_reads w1 = clock_reads w2 →
     run env [] health w1 = (o1, w1', log1) →
     run env [] health w2 = (o2, w2', log2) →
     o1 = o2).
Proof.
  split.
  - intros others w o w' log. unfold health. simpl.
    rewrite run_now_eq, run_ret. intros [= <- <- <-].
    split_and!; [done|by rewrite writes_cons_same|done].
  - intros w1 w2 o1 o2 w1' w2' log1 log2 Hclock. unfold health. simpl.
    rewrite !run_now_eq, !run_ret. intros [= <- _ _] [= <- _ _]. simpl.
    by rewrite Hclock.
Qed.

Lemma health_ignores_store_witness :
  Returned (BodyHealth {| status := "healthy"; timestamp := 1700000000000 |})
  = Returned (BodyHealth {| status := "healthy"; timestamp := 1700000000000 |}).
Proof.
  eapply (proj2 (health_ignores_store sample_env)
            initial (world_with (store_with "$2a$10$first"))); reflexivity.
Defined.

(** ** Configuration *)

(** X8. [CONFIG.JWT_SECRET] is never the empty string: it is the
    variable [JWT_SECRET] when that is set and not empty, and the
    built-in default when the variable is unset or empty. *)
Theorem jwt_secret_fallback env :
  JWT_SECRET env ≠ "" ∧
  (∀ s, env_vars env !! "JWT_SECRET" = Some s → s ≠ "" → JWT_SECRET env = s) ∧
  (env_vars env !! "JWT_SECRET" = None ∨ env_vars env !! "JWT_SECRET" = Some "" →
   JWT_SECRET env = "super_secret_key_123!").
Proof.
  unfold JWT_SECRET. destruct (env_vars env !! "JWT_SECRET") as [s|]; [|by split_and!].
  case_bool_decide as Hs.
  - subst s. split_and!; [done| |done]. by intros s [= <-].
  - split_and!; [done| |].
    + by intros s' [= <-].
    + by intros [|[= ->]].
Qed.

Lemma jwt_secret_fallback_witness :
  JWT_SECRET configured_env = "s3cret" ∧ JWT_SECRET sample_env = "super_secret_key_123!".
Proof.
  split.
  - apply (proj1 (proj2 (jwt_secret_fallback configured_env)) "s3cret");
      [reflexivity|discriminate].
  - apply (proj2 (proj2 (jwt_secret_fallback sample_env))). left. reflexivity.
Defined.

(** ** The middleware *)

Lemma run_bind_ret {A B} env (f : A → B) (m : Prog A) others w :
  run env others (bind m (λ a, Ret (f a))) w =
  let '(o, w', log) := run env others m w in (outcome_map f o, w', log).
Proof.
  revert others w.
  induction m as [a|s msg|k c IH|p c IH|op c IH|c IH|p c IH]; intros others w; simpl.
  - by rewrite !run_ret.
  - by rewrite !run_throw.
  - rewrite !run_get_eq, IH. by destruct (run _ _ _ _) as [[o w'] log].
  - rewrite !run_list_eq, IH. by destruct (run _ _ _ _) as [[o w'] log].
  - rewrite !run_commit_eq, IH. by destruct (run _ _ _ _) as [[o w'] log].
  - rewrite !run_now_eq, IH. by destruct (run _ _ _ _) as [[o w'] log].
  - rewrite !run_hash_eq, IH. by destruct (run _ _ _ _) as [[o w'] log].
Qed.

(** X9. Behind the middleware every route behaves as its handler does:
    the same effects on the world, the same error when the handler
    throws; and a response that is returned carries the handler's body
    and the two headers [X-Content-Type-Options: nosniff] and
    [X-Frame-Options: DENY]. *)
Theorem middleware_sets_headers env others r w o w' log :
  run env others (app env r) w = (o, w', log) →
  ∃ o',
    run env others (handler env r) w = (o', w', log) ∧
    match o with
    | Returned res =>
        ∃ b, o' = Returned b ∧ body res = Some b ∧
             headers res !! "X-Content-Type-Options" = Some "nosniff" ∧
             headers res !! "X-Frame-Options" = Some "DENY"
    | Thrown status message => o' = Thrown status message
    end.
Proof.
  unfold app, middleware, routes. simpl.
  change (mbind ?f ?m) with (bind m f). rewrite run_bind_ret.
  destruct (run env others (handler env r) w) as [[o' w1] log1].
  intros [= <- <- <-]. exists o'. split; [done|].
  destruct o' as [b|status message]; simpl; [|done].
  exists b. split_and!; [done..| |].
  - by rewrite lookup_insert_ne, lookup_insert_eq.
  - by rewrite lookup_insert_eq.
Qed.

Lemma middleware_sets_headers_witness :
  let res :=
    {| headers := <["X-Frame-Options" := "DENY"]>
                    (<["X-Content-Type-Options" := "nosniff"]> ∅);
       body := Some (BodyHealth {| status := "healthy"; timestamp := 1700000000000 |}) |} in
  ∃ o',
    run sample_env [] (handler sample_env GetHealth) initial
      = (o', {| kv := Kv.empty; clock_reads := 1; salts_drawn := 0 |},
         [(Kv.empty, Kv.empty)]) ∧
    ∃ b, o' = Returned b ∧ body res = Some b ∧
         headers res !! "X-Content-Type-Options" = Some "nosniff" ∧
         headers res !! "X-Frame-Options" = Some "DENY".
Proof.
  intros res.
  exact (middleware_sets_headers sample_env [] GetHealth initial (Returned res)
           {| kv := Kv.empty; clock_reads := 1; salts_drawn := 0 |}
           [(Kv.empty, Kv.empty)] eq_refl).
Defined.

(** ** The look-up before the write *)

(** X10. A valid registration answers 409 exactly when the username has
    a record at the moment the handler looks it up, whatever happens
    before and after: no other username's record causes a conflict, and
    a record that appears later does not turn into a 409. *)
Theorem conflict_iff_present env others u p w o w' log :
  u ≠ "" → (6 ≤ utf16_length p)%nat →
  run env others (register env {| req_username := Some u; req_password := Some p |}) w
    = (o, w', log) →
  (∃ msg, o = Thrown 409 msg) ↔
  is_Some (Kv.data (kv (interfere others w)) !! ["users"; u]).
Proof.
  intros Hu Hp Hrun. split.
  - intros [msg ->].
    destruct (register_run _ _ _ _ _ _ _ _ Hu Hp Hrun)
      as [(_ & _ & Hsome)|[(? & _)|(? & ? & ? & ? & ? & ? & _)]];
      [done|discriminate..].
  - intros [e Hget]. rewrite register_valid in Hrun by done.
    rewrite run_get_eq in Hrun.
    destruct (run env (tail others) _ (interfere others w)) as [[o1 w1] l1] eqn:E1.
    injection Hrun as -> -> <-. simpl in E1. rewrite Hget in E1. simpl in E1.
    rewrite ?run_throw in E1. injection E1 as <- _ _. eauto.
Qed.

Lemma conflict_iff_present_witness :
  (∃ msg, Thrown (A := Body) 409 "用户已存在" = Thrown 409 msg) ↔
  is_Some (Kv.data (kv (interfere [] (world_with (store_with "$2a$10$first"))))
             !! ["users"; "alice"]).
Proof.
  eapply (conflict_iff_present sample_env [] "alice" "hunter2"
            (world_with (store_with "$2a$10$first"))).
  - discriminate.
  - simpl. lia.
  - reflexivity.
Defined.

(** ** Validation of any body *)

(** X11. On a request that has a body, the handler answers 400 exactly
    when the username or the password is falsy or the length of the
    password is below six; it is then nothing but the throw: no store
    operation is performed, the world is unchanged and nothing is logged. *)
Theorem validation_answers_400 env ToNumber body m :
  body ≠ JsUndefined → body ≠ JsNull →
  post_register env ToNumber body = Some m →
  ((∃ msg, may_end m (Thrown 400 msg)) ↔
   ToBoolean (property "username" body) = false ∨
   ToBoolean (property "password" body) = false ∨
   too_short ToNumber (property "password" body) = true) ∧
  ((∃ msg, may_end m (Thrown 400 msg)) →
   ∃ msg, m = Throw 400 msg ∧
          ∀ others w, run env others m w = (Thrown 400 msg, w, [])).
Proof.
  intros Hu Hn Hm.
  destruct (post_register_cases _ _ _ _ Hm)
    as [[[->| ->] _]|[(_ & _ & Hbad & msg & _ & ->)|(u & p & _ & _ & Hne & Hlen & Htu & Htp & Hs & ->)]];
    try done.
  - split; [split; [done|]; intros _; exists msg; reflexivity|].
    intros _. exists msg. split; [done|]. intros. apply run_throw.
  - assert (¬ ∃ msg, may_end
              (register env {| req_username := Some u; req_password := Some p |})
              (Thrown 400 msg)) as Hnot.
    { intros [msg Hend]. by apply (register_valid_not_400 env u p msg). }
    split; [split; [done|]|done].
    rewrite Htu, Htp, Hs. by intros [|[|]].
Qed.

Lemma validation_answers_400_witness :
  (∃ msg, may_end (Throw (A := Body) 400 "密码至少需要6位") (Thrown 400 msg)) ↔
  ToBoolean (property "username" empty_array_password) = false ∨
  ToBoolean (property "password" empty_array_password) = false ∨
  too_short sample_ToNumber (property "password" empty_array_password) = true.
Proof.
  apply (validation_answers_400 sample_env sample_ToNumber empty_array_password
           (Throw 400 "密码至少需要6位")).
  - discriminate.
  - discriminate.
  - reflexivity.
Defined.
